(** * GangSTR: expansion-aware realignment and read classification

    A shallow embedding of [src/realignment.cpp] and the properties of
    its five functions: [calc_score], [create_score_matrix],
    [smith_waterman], [expansion_aware_realign] and
    [classify_realigned_read].

    Conventions of the embedding.
    - [int32_t] values are integers of [Z]; every arithmetic operation of
      the source is followed by the two's-complement wrap [int32].
      (Signed overflow is undefined in C++; the wrap is what the usual
      targets do, and every theorem that depends on the absence of
      overflow says so in its hypotheses.)
    - [std::string] is [list ascii], [std::vector<std::vector<int32_t>>]
      is [list (list Z)], read with stdpp's lookup and written with
      stdpp's insert behind the bounds check of [at()].
    - A C++ function [bool f(..., T* out)] becomes a function into
      [outcome T]: [Returned v] for [return true] with [*out = v],
      [ReturnedFalse] for [return false], and one constructor per way of
      not returning at all.
    - The constants of the absent header [src/realignment.h]
      ([MATCH_SCORE], [MISMATCH_SCORE], [GAP_SCORE],
      [MATCH_PERC_THRESHOLD]) are parameters; the global [MARGIN] is a
      field of the explicit global state [globals]. *)

From Stdlib Require Import ZArith Lia Ascii String QArith.QArith_base.
From stdpp Require Import base option list.

Local Open Scope Z_scope.

(** ** Machine integers *)

Definition min_int32 : Z := -2147483648.
Definition max_int32 : Z := 2147483647.

Definition in_int32 (z : Z) : Prop := min_int32 <= z <= max_int32.

(** Two's-complement reduction to 32 bits. *)
Definition int32 (z : Z) : Z := (z + 2147483648) mod 4294967296 - 2147483648.

Definition add32 (a b : Z) : Z := int32 (a + b).
Definition sub32 (a b : Z) : Z := int32 (a - b).
Definition mul32 (a b : Z) : Z := int32 (a * b).

(** [(int32_t)s.size()] *)
Definition size32 {A : Type} (l : list A) : Z := int32 (Z.of_nat (length l)).

(** ** Outcomes of a call *)

Inductive outcome (A : Type) : Type :=
| Returned (a : A)     (* return true; the out-parameters hold [a] *)
| ReturnedFalse        (* return false; the out-parameters are untouched *)
| OutOfRange           (* std::out_of_range thrown by at() *)
| LengthError          (* std::length_error / bad_alloc thrown by a vector of negative size *)
| DivideByZero.        (* integer division by zero *)

Arguments Returned {A} a.
Arguments ReturnedFalse {A}.
Arguments OutOfRange {A}.
Arguments LengthError {A}.
Arguments DivideByZero {A}.

#[global] Instance outcome_ret : MRet outcome := @Returned.

#[global] Instance outcome_bind : MBind outcome := fun A B f x =>
  match x with
  | Returned a => f a
  | ReturnedFalse => ReturnedFalse
  | OutOfRange => OutOfRange
  | LengthError => LengthError
  | DivideByZero => DivideByZero
  end.

(** ** Containers *)

Abbreviation matrix := (list (list Z)).

(** [v.at(z)] for an [int] index [z]: the index is converted to the
    unsigned [size_t], so a negative [z] becomes a value beyond the size
    of any container and is rejected like any other index past the end. *)
Definition at_ {A : Type} (l : list A) (z : Z) : outcome A :=
  if z <? 0 then OutOfRange
  else match l !! Z.to_nat z with
       | Some x => Returned x
       | None => OutOfRange
       end.

(** [m->at(i).at(j)] as an rvalue. *)
Definition at2 (m : matrix) (i j : Z) : outcome Z :=
  row ← at_ m i; at_ row j.

(** [m->at(i).at(j) = v] *)
Definition set2 (m : matrix) (i j : Z) (v : Z) : outcome matrix :=
  row ← at_ m i;
  _ ← at_ row j;
  Returned (<[Z.to_nat i := <[Z.to_nat j := v]> row]> m).

(** [for (c = lo; c < hi; c++) body], the body threading a state and able
    to leave the function.  The counter never overflows: it is
    incremented only while it is below [hi]. *)
Fixpoint for_steps {St : Type} (body : Z → St → outcome St)
    (n : nat) (c : Z) (s : St) : outcome St :=
  match n with
  | O => Returned s
  | S n' => s' ← body c s; for_steps body n' (c + 1) s'
  end.

Definition for_lt {St : Type} (lo hi : Z) (body : Z → St → outcome St)
    (s : St) : outcome St :=
  for_steps body (Z.to_nat (hi - lo)) lo s.

(** ** Types of the program *)

(** The enumeration lives in a header that is not part of the sources at
    hand; these are the five enumerators the classifier assigns. *)
Inductive SingleReadType : Type :=
| SR_PREFLANK
| SR_POSTFLANK
| SR_ENCLOSING
| SR_IRR
| SR_UNKNOWN.

#[global] Instance SingleReadType_eq_dec : EqDecision SingleReadType.
Proof. solve_decision. Defined.

(** The process-wide variable written by the realigner and read by the
    classifier. *)
Record globals : Type := Globals { MARGIN : Z }.

(** State of the two loops of [create_score_matrix]. *)
Record fill_state : Type := FillState {
  fs_matrix : matrix;
  fs_max_score : Z;
  fs_max_pos_row : Z;
  fs_max_pos_col : Z
}.

(** One call of [smith_waterman] made by the realigner, as the realigner
    sees it: the copy count tried, and the position and score returned. *)
Record trial : Type := Trial {
  t_nCopy : Z;
  t_pos : Z;
  t_score : Z
}.

(** [(int32_t)d] for a double [d]: truncation toward zero.  Doubles are
    taken as exact rationals. *)
Definition double_to_int32 (q : Q) : Z := int32 (Qnum q ÷ Z.pos (Qden q)).

(** A string literal as a [std::string]. *)
Definition dna (s : string) : list ascii := list_ascii_of_string s.

(** The threshold used in the examples. *)
Definition nine_tenths : Q := Qmake 9 10.

Section Realignment.

Variables MATCH_SCORE MISMATCH_SCORE GAP_SCORE : Z.
Variable MATCH_PERC_THRESHOLD : Q.

(** *** calc_score *)

Definition calc_score (i j : Z) (seq1 seq2 : list ascii) (m : matrix)
    : outcome matrix :=
  let max_score := 0 in
  c1 ← at_ seq1 (sub32 i 1);
  c2 ← at_ seq2 (sub32 j 1);
  let similarity := if Ascii.eqb c1 c2 then MATCH_SCORE else MISMATCH_SCORE in
  d ← at2 m (sub32 i 1) (sub32 j 1);
  let diag_score := add32 d similarity in
  let max_score := if diag_score >? max_score then diag_score else max_score in
  u ← at2 m (sub32 i 1) j;
  let up_score := add32 u GAP_SCORE in
  let max_score := if up_score >? max_score then up_score else max_score in
  l ← at2 m i (sub32 j 1);
  let left_score := add32 l GAP_SCORE in
  let max_score := if left_score >? max_score then left_score else max_score in
  set2 m i j max_score.

(** *** create_score_matrix *)

(** The body of the inner loop. *)
Definition fill_cell (seq1 seq2 : list ascii) (i j : Z) (s : fill_state)
    : outcome fill_state :=
  m ← calc_score i j seq1 seq2 (fs_matrix s);
  v ← at2 m i j;
  if v >? fs_max_score s
  then Returned (FillState m v i j)
  else Returned (FillState m (fs_max_score s) (fs_max_pos_row s) (fs_max_pos_col s)).

(** The two nested loops. *)
Definition fill_loops (rows cols : Z) (seq1 seq2 : list ascii) (m : matrix)
    : outcome fill_state :=
  for_lt 1 rows
    (fun i => for_lt 1 cols (fun j => fill_cell seq1 seq2 i j))
    (FillState m 0 (-1) (-1)).

(** Result: the matrix as it was left, [*start_pos], [*current_score]. *)
Definition create_score_matrix (rows cols : Z) (seq1 seq2 : list ascii)
    (m : matrix) : outcome (matrix * Z * Z) :=
  s ← fill_loops rows cols seq1 seq2 m;
  if (fs_max_pos_row s =? -1) || (fs_max_pos_col s =? -1)
  then Returned (fs_matrix s, -1, 0)
  else Returned (fs_matrix s, fs_max_pos_row s, fs_max_score s).

(** *** smith_waterman *)

(** [score_matrix.resize(rows, std::vector<int32_t>(cols, 0))] on the
    empty vector. *)
Definition alloc_matrix (rows cols : Z) : outcome matrix :=
  if (rows <? 0) || (cols <? 0) then LengthError
  else Returned (replicate (Z.to_nat rows) (replicate (Z.to_nat cols) 0)).

(** The first half of [smith_waterman]: the matrix is allocated and
    filled.  The matrix is kept in the result. *)
Definition smith_waterman_matrix (seq1 seq2 : list ascii)
    : outcome (matrix * Z * Z) :=
  let rows := add32 (size32 seq1) 1 in
  let cols := add32 (size32 seq2) 1 in
  m ← alloc_matrix rows cols;
  create_score_matrix rows cols seq1 seq2 m.

(** Result: [( *pos, *score )]. *)
Definition smith_waterman (seq1 seq2 : list ascii) : outcome (Z * Z) :=
  '(_, start_pos, current_score) ← smith_waterman_matrix seq1 seq2;
  Returned (sub32 start_pos (size32 seq2), current_score).

(** *** expansion_aware_realign *)

(** [pre_flank], then [k] times [motif], then [post_flank]. *)
Fixpoint repeat_motif (motif : list ascii) (k : nat) : list ascii :=
  match k with
  | O => []
  | S k' => motif ++ repeat_motif motif k'
  end.

Definition var_realign_string (pre_flank post_flank motif : list ascii)
    (current_nCopy : Z) : list ascii :=
  pre_flank ++ repeat_motif motif (Z.to_nat current_nCopy) ++ post_flank.

(** The trial loop, [n] iterations left.  The state is
    [(max_nCopy, max_pos, max_score)]; [log] collects, oldest first,
    the calls of [smith_waterman] that were made.  The counter is
    incremented only while it is below the bound of the loop, so
    [current_nCopy++] never overflows. *)
Fixpoint realign_loop (seq pre_flank post_flank motif : list ascii)
    (n : nat) (current_nCopy : Z) (best : Z * Z * Z) (log : list trial)
    : outcome (Z * Z * Z * list trial) :=
  match n with
  | O => Returned (best, log)
  | S n' =>
      let '(max_nCopy, max_pos, max_score) := best in
      '(current_pos, current_score) ←
        smith_waterman
          (var_realign_string pre_flank post_flank motif current_nCopy) seq;
      let log' := log ++ [Trial current_nCopy current_pos current_score] in
      let best' :=
        if current_score >? max_score
        then (current_nCopy, current_pos, current_score)
        else best in
      if current_score =? mul32 (size32 seq) MATCH_SCORE
      then Returned (best', log')
      else realign_loop seq pre_flank post_flank motif n'
             (current_nCopy + 1) best' log'
  end.

(** The realigner with the log of its trials.  The second component is
    the global state it leaves. *)
Definition realign_trials (seq pre_flank post_flank motif : list ascii)
    (g : globals) : outcome (Z * Z * Z * list trial) * globals :=
  let read_len := size32 seq in
  let period := size32 motif in
  let g' := Globals (sub32 (mul32 4 period) 1) in
  (if period =? 0 then DivideByZero
   else
     let bound := add32 (int32 (read_len ÷ period)) 2 in
     realign_loop seq pre_flank post_flank motif
       (Z.to_nat bound) 0 (0, 0, 0) [],
   g').

(** Result: [( *nCopy, *pos, *score )], and the new global state. *)
Definition expansion_aware_realign (seq pre_flank post_flank motif : list ascii)
    (g : globals) : outcome (Z * Z * Z) * globals :=
  let '(r, g') := realign_trials seq pre_flank post_flank motif g in
  ('(best, _) ← r; Returned best, g').

(** *** classify_realigned_read *)

Definition score_threshold (seq : list ascii) : Z :=
  double_to_int32
    (Qmult (Qmult MATCH_PERC_THRESHOLD (inject_Z (Z.of_nat (length seq))))
           (inject_Z MATCH_SCORE)).

(** The locals of the classifier. *)
Definition end_pos_of (seq : list ascii) (start_pos : Z) : Z :=
  sub32 (add32 start_pos (size32 seq)) 1.

Definition end_str_of (motif : list ascii) (nCopy prefix_length : Z) : Z :=
  add32 prefix_length (mul32 nCopy (size32 motif)).

(** The test applied to [start_pos] and to [end_pos]. *)
Definition in_str (g : globals) (start_str end_str p : Z) : bool :=
  (p >=? sub32 start_str (MARGIN g)) && (p <=? add32 end_str (MARGIN g)).

Definition classify_realigned_read (seq motif : list ascii)
    (start_pos nCopy score prefix_length : Z) (g : globals)
    : outcome SingleReadType :=
  let end_pos := end_pos_of seq start_pos in
  let start_str := prefix_length in
  let end_str := end_str_of motif nCopy prefix_length in
  let start_in_str := in_str g start_str end_str start_pos in
  let end_in_str := in_str g start_str end_str end_pos in
  if (score <? score_threshold seq) || (nCopy =? 0) then Returned SR_UNKNOWN
  else if start_in_str && end_in_str then Returned SR_IRR
  else if start_in_str && negb end_in_str then Returned SR_POSTFLANK
  else if negb start_in_str && end_in_str then Returned SR_PREFLANK
  else if (start_pos <? start_str) && (end_pos >? end_str) then Returned SR_ENCLOSING
  else ReturnedFalse.

(** The realigner followed by the classifier, as a caller chains them:
    the classifier runs in the global state the realigner left. *)
Definition realign_and_classify (seq pre_flank post_flank motif : list ascii)
    (prefix_length : Z) (g : globals)
    : outcome (Z * Z * Z * SingleReadType) :=
  let '(r, g') := expansion_aware_realign seq pre_flank post_flank motif g in
  '(nCopy, pos, score) ← r;
  c ← classify_realigned_read seq motif pos nCopy score prefix_length g';
  Returned (nCopy, pos, score, c).


(** *** Vocabulary of the statements *)

(** The value of cell [(i,j)]; 0 where the matrix has no such cell. *)
Definition cell (m : matrix) (i j : Z) : Z :=
  match at2 m i j with
  | Returned v => v
  | _ => 0
  end.

(** [m] has [rows] rows of [cols] cells each. *)
Definition shape (m : matrix) (rows cols : Z) : Prop :=
  Z.of_nat (length m) = rows ∧ ∀ r, r ∈ m → Z.of_nat (length r) = cols.

(** The similarity term of cell [(i,j)]. *)
Definition similarity (seq1 seq2 : list ascii) (i j : Z) : Z :=
  match seq1 !! Z.to_nat (i - 1), seq2 !! Z.to_nat (j - 1) with
  | Some c1, Some c2 => if Ascii.eqb c1 c2 then MATCH_SCORE else MISMATCH_SCORE
  | _, _ => MISMATCH_SCORE
  end.

(** The Smith-Waterman recurrence, on the diagonal, upper and left
    neighbours. *)
Definition cell_value (sim d u l : Z) : Z :=
  Z.max 0 (Z.max (add32 d sim) (Z.max (add32 u GAP_SCORE) (add32 l GAP_SCORE))).

(** The cells written before the inner loop reaches [(i,j)], in the
    row-major order of the two loops. *)
Definition visited (cols i j a b : Z) : Prop :=
  1 ≤ a ∧ 1 ≤ b < cols ∧ (a < i ∨ (a = i ∧ b < j)).

(** Cell [(a,b)] of [m] holds the value of the recurrence on its three
    neighbours in [m]. *)
Definition recurrence (seq1 seq2 : list ascii) (m : matrix) (a b : Z) : Prop :=
  cell m a b =
  cell_value (similarity seq1 seq2 a b)
    (cell m (a - 1) (b - 1)) (cell m (a - 1) b) (cell m a (b - 1)).

(** The invariant of the two loops of [create_score_matrix], at the
    head of the inner loop with counters [i] and [j]. *)
Record fill_inv (seq1 seq2 : list ascii) (rows cols i j : Z)
    (s : fill_state) : Prop := FillInv {
  fi_shape : shape (fs_matrix s) rows cols;
  fi_zero : ∀ a b, ¬ visited cols i j a b → cell (fs_matrix s) a b = 0;
  fi_rec : ∀ a b, visited cols i j a b → recurrence seq1 seq2 (fs_matrix s) a b;
  fi_max_ge : 0 ≤ fs_max_score s;
  fi_max_ub : ∀ a b, visited cols i j a b →
              cell (fs_matrix s) a b ≤ fs_max_score s;
  fi_max_at :
    (fs_max_pos_row s = -1 ∧ fs_max_pos_col s = -1 ∧ fs_max_score s = 0)
    ∨ (visited cols i j (fs_max_pos_row s) (fs_max_pos_col s)
       ∧ cell (fs_matrix s) (fs_max_pos_row s) (fs_max_pos_col s) = fs_max_score s
       ∧ 0 < fs_max_score s
       ∧ ∀ a b, visited cols (fs_max_pos_row s) (fs_max_pos_col s) a b →
                cell (fs_matrix s) a b < fs_max_score s)
}.

(** A matrix as [smith_waterman] leaves it for [seq1] and [seq2]:
    [(len seq1 + 1) x (len seq2 + 1)], zero on row 0 and column 0, the
    recurrence everywhere else. *)
Definition filled (seq1 seq2 : list ascii) (m : matrix) : Prop :=
  let rows := Z.of_nat (length seq1) + 1 in
  let cols := Z.of_nat (length seq2) + 1 in
  shape m rows cols
  ∧ (∀ a b, ¬ (1 ≤ a < rows ∧ 1 ≤ b < cols) → cell m a b = 0)
  ∧ (∀ a b, 1 ≤ a < rows → 1 ≤ b < cols → recurrence seq1 seq2 m a b).

(** What [create_score_matrix] hands back for [seq1] and [seq2]: the
    filled matrix, a score that bounds every cell, and either the
    sentinel or the row of the first cell, in row-major order, that
    holds the score. *)
Definition sw_result (seq1 seq2 : list ascii) (m : matrix)
    (start_pos score : Z) : Prop :=
  let rows := Z.of_nat (length seq1) + 1 in
  let cols := Z.of_nat (length seq2) + 1 in
  filled seq1 seq2 m
  ∧ 0 ≤ score
  ∧ (∀ a b, cell m a b ≤ score)
  ∧ ((start_pos = -1 ∧ score = 0)
     ∨ (0 < score ∧ 1 ≤ start_pos < rows
        ∧ ∃ col, 1 ≤ col < cols ∧ cell m start_pos col = score
                 ∧ ∀ a b, visited cols start_pos col a b → cell m a b < score)).

(** The last [b] bases of the first [a] bases of [seq1] are the first
    [b] bases of [seq2]. *)
Definition match_ending (seq1 seq2 : list ascii) (a b : nat) : Prop :=
  (b ≤ a)%nat ∧ take b (drop (a - b) seq1) = take b seq2.

(** [read] is, base for base and over its full length, the part of
    [hyp] that starts at offset [off]. *)
Definition occurs_at (hyp read : list ascii) (off : nat) : Prop :=
  (off + length read ≤ length hyp)%nat
  ∧ take (length read) (drop off hyp) = read.

Definition occurs (read hyp : list ascii) : Prop :=
  ∃ off, occurs_at hyp read off.

(** The score the loop of the realigner stops at. *)
Definition perfect_score (seq : list ascii) : Z :=
  mul32 (size32 seq) MATCH_SCORE.

(** The call of [smith_waterman] for copy count [k]. *)
Definition trial_of (seq pre_flank post_flank motif : list ascii) (k : Z)
    : outcome trial :=
  '(pos, score) ←
    smith_waterman (var_realign_string pre_flank post_flank motif k) seq;
  Returned (Trial k pos score).

(** The update of [(max_nCopy, max_pos, max_score)] after one trial,
    and after a list of trials. *)
Definition better (best : Z * Z * Z) (t : trial) : Z * Z * Z :=
  let '(_, _, max_score) := best in
  if t_score t >? max_score then (t_nCopy t, t_pos t, t_score t) else best.

Definition select (best : Z * Z * Z) (log : list trial) : Z * Z * Z :=
  foldl better best log.

(** The bound of the trial loop: the loop runs while
    [current_nCopy < trial_bound]. *)
Definition trial_bound (seq motif : list ascii) : Z :=
  Z.of_nat (length seq) ÷ Z.of_nat (length motif) + 2.

(** The value the realigner leaves in [MARGIN]. *)
Definition margin_of (motif : list ascii) : Z :=
  sub32 (mul32 4 (size32 motif)) 1.

(** Every copy count from 0 to [limit] was tried, or the loop had
    stopped on a perfect score before reaching it. *)
Definition tries_all_up_to (seq : list ascii) (limit : Z)
    (log : list trial) : Prop :=
  ∀ k, 0 ≤ k ≤ limit →
       (∃ t, t ∈ log ∧ t_nCopy t = k)
       ∨ (∃ t, t ∈ log ∧ t_nCopy t < k ∧ t_score t = perfect_score seq).

(** [r] is the result of a trial of greatest score, and of the one with
    the smallest copy count among those. *)
Definition first_best_trial (r : Z * Z * Z) (log : list trial) : Prop :=
  ∃ t, t ∈ log ∧ r = (t_nCopy t, t_pos t, t_score t)
       ∧ (∀ t', t' ∈ log → t_score t' ≤ t_score t)
       ∧ (∀ t', t' ∈ log → t_score t' = t_score t → t_nCopy t ≤ t_nCopy t').

(** No trial but the last one of the log reached the perfect score. *)
Definition stops_at_perfect (seq : list ascii) (log : list trial) : Prop :=
  ∀ idx t, log !! idx = Some t → t_score t = perfect_score seq →
           S idx = length log.

(** The strings of a call of the realigner are short enough for the
    longest string the loop can build, and the extra row of its matrix,
    to be counted in an [int32_t]. *)
Definition inputs_fit (seq pre_flank post_flank motif : list ascii) : Prop :=
  Z.of_nat (length pre_flank) + Z.of_nat (length seq)
  + Z.of_nat (length motif) + Z.of_nat (length post_flank) < max_int32.

(** The geometry satisfies none of the four conditions under which the
    classifier assigns IRR, POSTFLANK, PREFLANK or ENCLOSING. *)
Definition geometry_unclassified (seq motif : list ascii)
    (start_pos nCopy prefix_length : Z) (g : globals) : bool :=
  let end_pos := end_pos_of seq start_pos in
  let start_str := prefix_length in
  let end_str := end_str_of motif nCopy prefix_length in
  let start_in_str := in_str g start_str end_str start_pos in
  let end_in_str := in_str g start_str end_str end_pos in
  negb (start_in_str && end_in_str)
  && negb (start_in_str && negb end_in_str)
  && negb (negb start_in_str && end_in_str)
  && negb ((start_pos <? start_str) && (end_pos >? end_str)).

(** The scoring schemes the statements on scores are about: matches
    are rewarded, mismatches score less than matches, gaps are
    penalised, and the two penalties are [int32_t] values. *)
Definition scoring_scheme : Prop :=
  0 < MATCH_SCORE ∧ MISMATCH_SCORE < MATCH_SCORE ∧ GAP_SCORE < 0
  ∧ min_int32 ≤ MISMATCH_SCORE ∧ min_int32 ≤ GAP_SCORE.

(** The arithmetic of the classifier stays within [int32_t]: the two
    lengths, the product [nCopy * period], and every sum and difference
    the classifier forms from them. *)
Definition classifier_in_range (seq motif : list ascii)
    (start_pos nCopy prefix_length : Z) (g : globals) : Prop :=
  Z.of_nat (length seq) ≤ max_int32
  ∧ Z.of_nat (length motif) ≤ max_int32
  ∧ in_int32 (nCopy * Z.of_nat (length motif))
  ∧ in_int32 (prefix_length + nCopy * Z.of_nat (length motif))
  ∧ in_int32 (start_pos + Z.of_nat (length seq))
  ∧ in_int32 (start_pos + Z.of_nat (length seq) - 1)
  ∧ in_int32 (prefix_length - MARGIN g)
  ∧ in_int32 (prefix_length + nCopy * Z.of_nat (length motif) + MARGIN g).

(** The matrix has a cell [(a,b)]: [m->at(a).at(b)] does not throw. *)
Definition in_matrix (m : matrix) (a b : Z) : Prop :=
  ∃ v, at2 m a b = Returned v.

(** Every lookup of [calc_score] at [(i,j)] is in range: the bases at
    [i-1] and [j-1], the three neighbours and the cell itself. *)
Definition accesses_in_range (seq1 seq2 : list ascii) (m : matrix)
    (i j : Z) : Prop :=
  1 ≤ i ≤ Z.of_nat (length seq1) ∧ 1 ≤ j ≤ Z.of_nat (length seq2)
  ∧ in_matrix m (i - 1) (j - 1) ∧ in_matrix m (i - 1) j
  ∧ in_matrix m i (j - 1) ∧ in_matrix m i j.

(** ** Machine integers *)

Lemma int32_id z : in_int32 z → int32 z = z.
Proof.
  unfold in_int32, min_int32, max_int32, int32. intros Hz.
  rewrite Z.mod_small; lia.
Qed.

Lemma int32_in z : in_int32 (int32 z).
Proof.
  unfold in_int32, min_int32, max_int32, int32.
  pose proof (Z.mod_pos_bound (z + 2147483648) 4294967296). lia.
Qed.

Lemma add32_id a b : in_int32 (a + b) → add32 a b = a + b.
Proof. apply int32_id. Qed.

Lemma sub32_id a b : in_int32 (a - b) → sub32 a b = a - b.
Proof. apply int32_id. Qed.

Lemma mul32_id a b : in_int32 (a * b) → mul32 a b = a * b.
Proof. apply int32_id. Qed.

Lemma size32_id {A} (l : list A) :
  Z.of_nat (length l) ≤ max_int32 → size32 l = Z.of_nat (length l).
Proof.
  intros H. apply int32_id. unfold in_int32, min_int32, max_int32 in *. lia.
Qed.

(** ** Bounds-checked access *)

Lemma at_in {A} (l : list A) z :
  0 ≤ z < Z.of_nat (length l) →
  ∃ x, at_ l z = Returned x ∧ l !! Z.to_nat z = Some x.
Proof.
  intros Hz. unfold at_.
  destruct (Z.ltb_spec z 0) as [?|_]; [lia|].
  destruct (lookup_lt_is_Some_2 l (Z.to_nat z)) as [x Hx]; [lia|].
  exists x. by rewrite Hx.
Qed.

Lemma at_out {A} (l : list A) z :
  ¬ (0 ≤ z < Z.of_nat (length l)) → at_ l z = OutOfRange.
Proof.
  intros Hz. unfold at_.
  destruct (Z.ltb_spec z 0) as [?|?]; [done|].
  rewrite lookup_ge_None_2; [done|lia].
Qed.

Lemma at_Returned {A} (l : list A) z x :
  at_ l z = Returned x → 0 ≤ z < Z.of_nat (length l) ∧ l !! Z.to_nat z = Some x.
Proof.
  intros H.
  destruct (decide (0 ≤ z < Z.of_nat (length l))) as [Hz|Hz].
  - destruct (at_in l z Hz) as (y & Hy & Hl). split; [done|]. congruence.
  - rewrite at_out in H; done.
Qed.

Lemma shape_row m rows cols i row :
  shape m rows cols → m !! i = Some row → Z.of_nat (length row) = cols.
Proof. intros [_ H] Hi. apply H. by eapply list_elem_of_lookup_2. Qed.

Lemma at2_in m rows cols i j :
  shape m rows cols → 0 ≤ i < rows → 0 ≤ j < cols →
  at2 m i j = Returned (cell m i j).
Proof.
  intros Hs Hi Hj. unfold cell, at2.
  destruct (at_in m i) as (row & -> & Hrow); [destruct Hs; lia|]. simpl.
  pose proof (shape_row _ _ _ _ _ Hs Hrow).
  destruct (at_in row j) as (v & Hv & _); [lia|]. by rewrite Hv.
Qed.

Lemma at2_out m rows cols i j :
  shape m rows cols → ¬ (0 ≤ i < rows ∧ 0 ≤ j < cols) →
  at2 m i j = OutOfRange.
Proof.
  intros Hs Hij. unfold at2.
  destruct (decide (0 ≤ i < rows)) as [Hi|Hi].
  - destruct (at_in m i) as (row & -> & Hrow); [destruct Hs; lia|]. simpl.
    pose proof (shape_row _ _ _ _ _ Hs Hrow). apply at_out. lia.
  - rewrite at_out; [done|]. destruct Hs. lia.
Qed.

Lemma set2_Returned m i j v m' :
  set2 m i j v = Returned m' →
  0 ≤ i ∧ 0 ≤ j
  ∧ ∀ a b, cell m' a b = if decide (a = i ∧ b = j) then v else cell m a b.
Proof.
  unfold set2. intros H.
  destruct (at_ m i) as [row| | | |] eqn:Hrow; cbn in H; try done.
  destruct (at_ row j) as [v0| | | |] eqn:Hv0; cbn in H; try done.
  injection H as <-.
  apply at_Returned in Hrow as [Hi Hrow]. apply at_Returned in Hv0 as [Hj Hv0].
  split; [lia|]. split; [lia|].
  intros a b. case_decide as Hab.
  - destruct Hab as [-> ->]. unfold cell, at2, at_.
    destruct (Z.ltb_spec i 0); [lia|].
    rewrite list_lookup_insert_eq by lia. cbn.
    destruct (Z.ltb_spec j 0); [lia|].
    by rewrite list_lookup_insert_eq by lia.
  - unfold cell, at2, at_.
    destruct (Z.ltb_spec a 0); [done|].
    destruct (decide (a = i)) as [->|Hne].
    + rewrite list_lookup_insert_eq by lia. rewrite Hrow. cbn.
      destruct (Z.ltb_spec b 0); [done|].
      rewrite list_lookup_insert_ne; [done|lia].
    + rewrite list_lookup_insert_ne; [done|lia].
Qed.

Lemma set2_in m rows cols i j v :
  shape m rows cols → 0 ≤ i < rows → 0 ≤ j < cols →
  ∃ m', set2 m i j v = Returned m' ∧ shape m' rows cols ∧
        ∀ a b, cell m' a b = if decide (a = i ∧ b = j) then v else cell m a b.
Proof.
  intros Hs Hi Hj.
  destruct (at_in m i) as (row & Hat & Hrow); [destruct Hs; lia|].
  pose proof (shape_row _ _ _ _ _ Hs Hrow) as Hlen.
  destruct (at_in row j) as (v0 & Hat0 & _); [lia|].
  assert (Hset : set2 m i j v
                 = Returned (<[Z.to_nat i:=<[Z.to_nat j:=v]> row]> m)).
  { unfold set2. rewrite Hat. cbn. by rewrite Hat0. }
  eexists. split; [done|]. split; [|by apply set2_Returned].
  destruct Hs as [Hr Hc]. split; [by rewrite length_insert|].
  intros r Hr'. apply list_elem_of_lookup in Hr' as [k Hk].
  destruct (decide (k = Z.to_nat i)) as [->|Hne].
  - rewrite list_lookup_insert_eq in Hk; [|lia].
    injection Hk as <-. by rewrite length_insert.
  - rewrite list_lookup_insert_ne in Hk; [|done].
    apply Hc. by eapply list_elem_of_lookup_2.
Qed.

Lemma cell_lookup (m : matrix) a b row v :
  m !! a = Some row → row !! b = Some v → cell m (Z.of_nat a) (Z.of_nat b) = v.
Proof.
  intros Ha Hb. unfold cell, at2, at_. rewrite !Nat2Z.id.
  destruct (Z.ltb_spec (Z.of_nat a) 0); [lia|].
  rewrite Ha. cbn.
  destruct (Z.ltb_spec (Z.of_nat b) 0); [lia|].
  by rewrite Hb.
Qed.

Lemma cell_cases (m : matrix) i j :
  cell m i j = 0
  ∨ ∃ row, m !! Z.to_nat i = Some row ∧ row !! Z.to_nat j = Some (cell m i j).
Proof.
  unfold cell, at2, at_.
  destruct (i <? 0); cbn; [by left|].
  destruct (m !! Z.to_nat i) as [row|] eqn:Hrow; cbn; [|by left].
  destruct (j <? 0); cbn; [by left|].
  destruct (row !! Z.to_nat j) as [v|] eqn:Hv; cbn; [|by left].
  right. by exists row.
Qed.

(** ** The cell scorer *)

Lemma max_chain (x y z : Z) :
  (let m0 := 0 in
   let m1 := if x >? m0 then x else m0 in
   let m2 := if y >? m1 then y else m1 in
   if z >? m2 then z else m2)
  = Z.max 0 (Z.max x (Z.max y z)).
Proof.
  cbv zeta. rewrite !Z.gtb_ltb.
  destruct (Z.ltb_spec 0 x);
    [destruct (Z.ltb_spec x y)|destruct (Z.ltb_spec 0 y)];
    match goal with
    | |- context [?a <? ?b] => destruct (Z.ltb_spec a b)
    end; lia.
Qed.

Lemma calc_score_in seq1 seq2 m rows cols i j :
  shape m rows cols →
  rows - 1 ≤ Z.of_nat (length seq1) → cols - 1 ≤ Z.of_nat (length seq2) →
  in_int32 i → in_int32 j → 1 ≤ i < rows → 1 ≤ j < cols →
  ∃ m', calc_score i j seq1 seq2 m = Returned m' ∧ shape m' rows cols ∧
        ∀ a b, cell m' a b =
               if decide (a = i ∧ b = j)
               then cell_value (similarity seq1 seq2 i j)
                      (cell m (i - 1) (j - 1)) (cell m (i - 1) j) (cell m i (j - 1))
               else cell m a b.
Proof.
  intros Hs Hr Hc Hi32 Hj32 Hi Hj. unfold calc_score.
  rewrite !sub32_id by (unfold in_int32, min_int32, max_int32 in *; lia).
  destruct (at_in seq1 (i - 1)) as (c1 & -> & Hc1); [lia|].
  destruct (at_in seq2 (j - 1)) as (c2 & -> & Hc2); [lia|]. cbn.
  rewrite !(at2_in m rows cols) by (done || lia). cbn.
  unfold cell_value, similarity. rewrite Hc1, Hc2.
  rewrite <- max_chain. cbv zeta.
  apply set2_in; [done|lia|lia].
Qed.

Lemma at_outcome {A} (l : list A) z :
  at_ l z = OutOfRange ∨ ∃ x, at_ l z = Returned x.
Proof. unfold at_. repeat case_match; eauto. Qed.

Lemma at2_outcome m a b : at2 m a b = OutOfRange ∨ in_matrix m a b.
Proof.
  unfold in_matrix, at2.
  destruct (at_outcome m a) as [->|[row ->]]; cbn; [by left|].
  destruct (at_outcome row b) as [->|[v ->]]; eauto.
Qed.

Lemma set2_in_matrix m i j v m' : set2 m i j v = Returned m' → in_matrix m i j.
Proof.
  unfold set2, in_matrix, at2. intros H.
  destruct (at_ m i) as [row| | | |]; cbn in *; try done.
  destruct (at_ row j) as [v0| | | |]; cbn in *; try done. by exists v0.
Qed.

Lemma in_matrix_set2 m i j v : in_matrix m i j → ∃ m', set2 m i j v = Returned m'.
Proof.
  unfold set2, in_matrix, at2. intros [v0 H].
  destruct (at_ m i) as [row| | | |]; cbn in *; try done.
  destruct (at_ row j) as [v1| | | |]; cbn in *; try done. by eexists.
Qed.

(** [calc_score] either returns true or throws [std::out_of_range]. *)
Lemma calc_score_outcome seq1 seq2 m i j :
  calc_score i j seq1 seq2 m = OutOfRange
  ∨ ∃ m', calc_score i j seq1 seq2 m = Returned m'.
Proof.
  unfold calc_score.
  destruct (at_outcome seq1 (sub32 i 1)) as [->|[c1 ->]]; cbn; [by left|].
  destruct (at_outcome seq2 (sub32 j 1)) as [->|[c2 ->]]; cbn; [by left|].
  destruct (at2_outcome m (sub32 i 1) (sub32 j 1)) as [->|[d ->]]; cbn; [by left|].
  destruct (at2_outcome m (sub32 i 1) j) as [->|[u ->]]; cbn; [by left|].
  destruct (at2_outcome m i (sub32 j 1)) as [->|[l ->]]; cbn; [by left|].
  match goal with
  | |- context [set2 m i j ?v] =>
      destruct (at2_outcome m i j) as [Hout|Hin];
      [left|right; by apply in_matrix_set2]
  end.
  unfold set2. unfold at2 in Hout.
  destruct (at_ m i) as [row| | | |]; cbn in *; try done.
  by rewrite Hout.
Qed.

Lemma calc_score_Returned_access seq1 seq2 m i j m' :
  in_int32 i → in_int32 j →
  calc_score i j seq1 seq2 m = Returned m' →
  accesses_in_range seq1 seq2 m i j.
Proof.
  intros Hi32 Hj32. unfold calc_score. intros H.
  destruct (at_ seq1 _) as [c1| | | |] eqn:Hc1; cbn in H; try done.
  destruct (at_ seq2 _) as [c2| | | |] eqn:Hc2; cbn in H; try done.
  destruct (at2 m (sub32 i 1) (sub32 j 1)) as [d| | | |] eqn:Hd; cbn in H; try done.
  destruct (at2 m (sub32 i 1) j) as [u| | | |] eqn:Hu; cbn in H; try done.
  destruct (at2 m i (sub32 j 1)) as [l| | | |] eqn:Hl; cbn in H; try done.
  pose proof (set2_in_matrix _ _ _ _ _ H) as Hij.
  apply set2_Returned in H as (Hi & Hj & _).
  apply at_Returned in Hc1 as [Hi1 _]. apply at_Returned in Hc2 as [Hj1 _].
  assert (sub32 i 1 = i - 1) as Hsi
    by (apply sub32_id; unfold in_int32, min_int32, max_int32 in *; lia).
  assert (sub32 j 1 = j - 1) as Hsj
    by (apply sub32_id; unfold in_int32, min_int32, max_int32 in *; lia).
  rewrite Hsi, Hsj in *.
  unfold accesses_in_range, in_matrix. repeat split; eauto; lia.
Qed.

Lemma calc_score_access_Returned seq1 seq2 m i j :
  in_int32 i → in_int32 j →
  accesses_in_range seq1 seq2 m i j →
  ∃ m', calc_score i j seq1 seq2 m = Returned m'.
Proof.
  intros Hi32 Hj32 (Hi & Hj & [d Hd] & [u Hu] & [l Hl] & Hij).
  unfold calc_score.
  rewrite !sub32_id by (unfold in_int32, min_int32, max_int32 in *; lia).
  destruct (at_in seq1 (i - 1)) as (c1 & -> & _); [lia|].
  destruct (at_in seq2 (j - 1)) as (c2 & -> & _); [lia|]. cbn.
  rewrite Hd, Hu, Hl. cbn. by apply in_matrix_set2.
Qed.

Lemma in_matrix_shape m rows cols a b :
  shape m rows cols → in_matrix m a b ↔ 0 ≤ a < rows ∧ 0 ≤ b < cols.
Proof.
  intros Hs. unfold in_matrix. split.
  - intros [v Hv].
    destruct (decide (0 ≤ a < rows ∧ 0 ≤ b < cols)) as [|Hout]; [done|].
    by rewrite (at2_out m rows cols) in Hv.
  - intros [Ha Hb]. exists (cell m a b). by apply (at2_in m rows cols).
Qed.


Lemma at2_Returned m i j v : at2 m i j = Returned v → cell m i j = v.
Proof. unfold cell. by intros ->. Qed.

Lemma calc_score_Returned seq1 seq2 m i j m' :
  in_int32 i → in_int32 j →
  calc_score i j seq1 seq2 m = Returned m' →
  1 ≤ i ∧ 1 ≤ j
  ∧ ∀ a b, cell m' a b =
           if decide (a = i ∧ b = j)
           then cell_value (similarity seq1 seq2 i j)
                  (cell m (i - 1) (j - 1)) (cell m (i - 1) j) (cell m i (j - 1))
           else cell m a b.
Proof.
  intros Hi32 Hj32. unfold calc_score. intros H.
  destruct (at_ seq1 _) as [c1| | | |] eqn:Hc1; cbn in H; try done.
  destruct (at_ seq2 _) as [c2| | | |] eqn:Hc2; cbn in H; try done.
  destruct (at2 m (sub32 i 1) (sub32 j 1)) as [d| | | |] eqn:Hd; cbn in H; try done.
  destruct (at2 m (sub32 i 1) j) as [u| | | |] eqn:Hu; cbn in H; try done.
  destruct (at2 m i (sub32 j 1)) as [l| | | |] eqn:Hl; cbn in H; try done.
  apply set2_Returned in H as (Hi & Hj & Hcell).
  apply at_Returned in Hc1 as [Hi1 Hc1]. apply at_Returned in Hc2 as [Hj1 Hc2].
  assert (sub32 i 1 = i - 1) as Hsi
    by (apply sub32_id; unfold in_int32, min_int32, max_int32 in *; lia).
  assert (sub32 j 1 = j - 1) as Hsj
    by (apply sub32_id; unfold in_int32, min_int32, max_int32 in *; lia).
  rewrite Hsi, Hsj in *.
  split; [lia|]. split; [lia|].
  intros a b. rewrite Hcell. case_decide; [|done].
  apply at2_Returned in Hd, Hu, Hl. subst d u l.
  unfold cell_value, similarity. rewrite Hc1, Hc2.
  by rewrite <- max_chain.
Qed.

(** ** Loops *)

Lemma for_steps_inv {St} (I : Z → St → Prop) (body : Z → St → outcome St) n c s :
  I c s →
  (∀ c' s', c ≤ c' < c + Z.of_nat n → I c' s' →
            ∃ s'', body c' s' = Returned s'' ∧ I (c' + 1) s'') →
  ∃ s', for_steps body n c s = Returned s' ∧ I (c + Z.of_nat n) s'.
Proof.
  revert c s. induction n as [|n IH]; intros c s Hc Hbody.
  - exists s. split; [done|]. by replace (c + Z.of_nat 0) with c by lia.
  - destruct (Hbody c s) as (s1 & Hs1 & HI1); [lia|done|].
    destruct (IH (c + 1) s1) as (s2 & Hs2 & HI2); [done| |].
    + intros c' s' Hc'. apply Hbody. lia.
    + exists s2. cbn. rewrite Hs1. cbn. split; [done|].
      by replace (c + Z.of_nat (S n)) with (c + 1 + Z.of_nat n) by lia.
Qed.

Lemma for_lt_inv {St} (I : Z → St → Prop) (body : Z → St → outcome St) lo hi s :
  lo ≤ hi → I lo s →
  (∀ c s', lo ≤ c < hi → I c s' → ∃ s'', body c s' = Returned s'' ∧ I (c + 1) s'') →
  ∃ s', for_lt lo hi body s = Returned s' ∧ I hi s'.
Proof.
  intros Hle H0 Hbody. unfold for_lt.
  destruct (for_steps_inv I body (Z.to_nat (hi - lo)) lo s) as (s' & Hs' & HI);
    [done| |].
  - intros c' s' Hc'. apply Hbody. lia.
  - exists s'. split; [done|]. by replace hi with (lo + Z.of_nat (Z.to_nat (hi - lo))) by lia.
Qed.

(** ** The score matrix builder *)

Lemma cell_value_nonneg sim d u l : 0 ≤ cell_value sim d u l.
Proof. unfold cell_value. lia. Qed.

Lemma cell_zeros r c a b : cell (replicate r (replicate c 0)) a b = 0.
Proof.
  unfold cell, at2, at_.
  destruct (a <? 0); [done|].
  destruct (replicate r (replicate c 0) !! Z.to_nat a) as [row|] eqn:Hrow; [|done].
  apply lookup_replicate_1 in Hrow as [-> _]. cbn.
  destruct (b <? 0); [done|].
  destruct (replicate c 0 !! Z.to_nat b) as [v|] eqn:Hv; [|done].
  by apply lookup_replicate_1 in Hv as [-> _].
Qed.

Lemma shape_zeros rows cols :
  0 ≤ rows → 0 ≤ cols →
  shape (replicate (Z.to_nat rows) (replicate (Z.to_nat cols) 0)) rows cols.
Proof.
  intros Hr Hc. split.
  - rewrite length_replicate. lia.
  - intros r [-> _]%elem_of_replicate. rewrite length_replicate. lia.
Qed.

Lemma fill_inv_ext seq1 seq2 rows cols i j i' j' s :
  (∀ a b, visited cols i j a b ↔ visited cols i' j' a b) →
  fill_inv seq1 seq2 rows cols i j s → fill_inv seq1 seq2 rows cols i' j' s.
Proof.
  intros Hv [Hsh Hz Hrec Hge Hub Hat]. constructor; try done.
  - intros a b Hn. apply Hz. by rewrite Hv.
  - intros a b Hab. apply Hrec. by rewrite Hv.
  - intros a b Hab. apply Hub. by rewrite Hv.
  - destruct Hat as [?|(Hvis & ?)]; [by left|right]. by rewrite <- Hv.
Qed.

Section Fill.

Variables seq1 seq2 : list ascii.

Let rows : Z := Z.of_nat (length seq1) + 1.
Let cols : Z := Z.of_nat (length seq2) + 1.

Hypothesis fits1 : rows ≤ max_int32.
Hypothesis fits2 : cols ≤ max_int32.

Lemma fill_cell_step i j s :
  1 ≤ i < rows → 1 ≤ j < cols →
  fill_inv seq1 seq2 rows cols i j s →
  ∃ s', fill_cell seq1 seq2 i j s = Returned s'
        ∧ fill_inv seq1 seq2 rows cols i (j + 1) s'.
Proof.
  intros Hi Hj [Hsh Hz Hrec Hge Hub Hat].
  destruct (calc_score_in seq1 seq2 (fs_matrix s) rows cols i j)
    as (m' & Hcalc & Hsh' & Hcell);
    try (done || (unfold in_int32, min_int32, max_int32, rows, cols in *; lia)).
  assert (Hnew : cell m' i j =
                 cell_value (similarity seq1 seq2 i j)
                   (cell (fs_matrix s) (i - 1) (j - 1))
                   (cell (fs_matrix s) (i - 1) j)
                   (cell (fs_matrix s) i (j - 1))).
  { rewrite Hcell. case_decide; [done|lia]. }
  assert (Hold : ∀ a b, ¬ (a = i ∧ b = j) → cell m' a b = cell (fs_matrix s) a b).
  { intros a b Hab. rewrite Hcell. by case_decide. }
  assert (Hpos : 0 ≤ cell m' i j).
  { rewrite Hnew. apply cell_value_nonneg. }
  unfold fill_cell. rewrite Hcalc. cbn.
  rewrite (at2_in m' rows cols) by (done || lia). cbn.
  rewrite Z.gtb_ltb.
  destruct (Z.ltb_spec (fs_max_score s) (cell m' i j)) as [Hgt|Hle].
  - eexists. split; [done|]. constructor; cbn.
    + done.
    + intros a b Hn. rewrite Hold; [apply Hz|]; unfold visited in *; lia.
    + intros a b Hab. unfold recurrence.
      destruct (decide (a = i ∧ b = j)) as [[-> ->]|Hne].
      * rewrite Hnew, !Hold by lia. done.
      * rewrite !Hold by (unfold visited in *; lia).
        apply Hrec. unfold visited in *; lia.
    + lia.
    + intros a b Hab.
      destruct (decide (a = i ∧ b = j)) as [[-> ->]|Hne]; [lia|].
      rewrite Hold by done.
      assert (visited cols i j a b) as Hv%Hub by (unfold visited in *; lia). lia.
    + right. repeat split; try lia.
      intros a b Hab. pose proof (Hub _ _ Hab).
      rewrite Hold; [lia|]. unfold visited in Hab. lia.
  - eexists. split; [done|]. constructor; cbn.
    + done.
    + intros a b Hn. rewrite Hold; [apply Hz|]; unfold visited in *; lia.
    + intros a b Hab. unfold recurrence.
      destruct (decide (a = i ∧ b = j)) as [[-> ->]|Hne].
      * rewrite Hnew, !Hold by lia. done.
      * rewrite !Hold by (unfold visited in *; lia).
        apply Hrec. unfold visited in *; lia.
    + done.
    + intros a b Hab.
      destruct (decide (a = i ∧ b = j)) as [[-> ->]|Hne]; [lia|].
      rewrite Hold by done.
      apply Hub. unfold visited in *; lia.
    + destruct Hat as [?|(Hvis & Hc & Hp & Hbefore)]; [by left|right].
      split; [unfold visited in *; lia|].
      split; [rewrite Hold; [done|unfold visited in *; lia]|].
      split; [done|].
      intros a b Hab. rewrite Hold; [by apply Hbefore|].
      unfold visited in *; lia.
Qed.

Lemma fill_row i s :
  1 ≤ i < rows →
  fill_inv seq1 seq2 rows cols i 1 s →
  ∃ s', for_lt 1 cols (fun j => fill_cell seq1 seq2 i j) s = Returned s'
        ∧ fill_inv seq1 seq2 rows cols (i + 1) 1 s'.
Proof.
  intros Hi Hinv.
  destruct (for_lt_inv (fun j s => fill_inv seq1 seq2 rows cols i j s)
              (fun j => fill_cell seq1 seq2 i j) 1 cols s)
    as (s' & Hs' & Hinv'); [unfold cols; lia|done| |].
  - intros j s0 Hj. by apply fill_cell_step.
  - exists s'. split; [done|].
    eapply fill_inv_ext; [|done]. unfold visited. lia.
Qed.

Lemma fill_inv_init :
  fill_inv seq1 seq2 rows cols 1 1
    (FillState (replicate (Z.to_nat rows) (replicate (Z.to_nat cols) 0)) 0 (-1) (-1)).
Proof.
  constructor; cbn.
  - apply shape_zeros; unfold rows, cols; lia.
  - intros a b _. apply cell_zeros.
  - unfold visited. lia.
  - lia.
  - unfold visited. lia.
  - by left.
Qed.

Lemma fill_loops_spec :
  ∃ s, fill_loops rows cols seq1 seq2
         (replicate (Z.to_nat rows) (replicate (Z.to_nat cols) 0)) = Returned s
       ∧ fill_inv seq1 seq2 rows cols rows 1 s.
Proof.
  unfold fill_loops.
  apply (for_lt_inv (fun i s => fill_inv seq1 seq2 rows cols i 1 s)).
  - unfold rows. lia.
  - apply fill_inv_init.
  - intros i s Hi. by apply fill_row.
Qed.

Lemma fill_inv_final s :
  fill_inv seq1 seq2 rows cols rows 1 s →
  sw_result seq1 seq2 (fs_matrix s)
    (if (fs_max_pos_row s =? -1) || (fs_max_pos_col s =? -1)
     then -1 else fs_max_pos_row s)
    (if (fs_max_pos_row s =? -1) || (fs_max_pos_col s =? -1)
     then 0 else fs_max_score s).
Proof.
  intros [Hsh Hz Hrec Hge Hub Hat]. unfold sw_result. fold rows cols.
  assert (Hall : ∀ a b, cell (fs_matrix s) a b ≤ fs_max_score s).
  { intros a b. destruct (decide (visited cols rows 1 a b)) as [Hv|Hv].
    - by apply Hub.
    - rewrite Hz; done. }
  assert (Hfilled : filled seq1 seq2 (fs_matrix s)).
  { unfold filled. fold rows cols. split; [done|]. split.
    - intros a b Hab. apply Hz. unfold visited. lia.
    - intros a b Ha Hb. apply Hrec. unfold visited. lia. }
  destruct Hat as [(Hr & Hc & H0)|(Hvis & Hc & Hp & Hbefore)].
  - rewrite Hr. cbn. split; [done|]. split; [done|].
    split; [|by left]. intros a b. specialize (Hall a b). lia.
  - assert ((fs_max_pos_row s =? -1) || (fs_max_pos_col s =? -1) = false) as ->.
    { unfold visited in Hvis. apply orb_false_intro; apply Z.eqb_neq; lia. }
    split; [done|]. split; [done|]. split; [done|]. right.
    split; [done|]. split; [unfold visited in Hvis; lia|].
    exists (fs_max_pos_col s). split; [unfold visited in Hvis; lia|]. done.
Qed.

Lemma create_score_matrix_spec :
  ∃ m start_pos score,
    create_score_matrix rows cols seq1 seq2
      (replicate (Z.to_nat rows) (replicate (Z.to_nat cols) 0))
    = Returned (m, start_pos, score)
    ∧ sw_result seq1 seq2 m start_pos score.
Proof.
  destruct fill_loops_spec as (s & Hs & Hinv).
  pose proof (fill_inv_final s Hinv) as Hres.
  unfold create_score_matrix. rewrite Hs. cbn.
  destruct ((fs_max_pos_row s =? -1) || (fs_max_pos_col s =? -1));
    eexists _, _, _; split; done.
Qed.

Lemma smith_waterman_matrix_spec :
  ∃ m start_pos score,
    smith_waterman_matrix seq1 seq2 = Returned (m, start_pos, score)
    ∧ sw_result seq1 seq2 m start_pos score.
Proof.
  unfold smith_waterman_matrix.
  rewrite !size32_id by (unfold rows, cols in *; lia).
  rewrite !add32_id
    by (unfold in_int32, min_int32, max_int32, rows, cols in *; lia).
  fold rows cols. unfold alloc_matrix.
  destruct (Z.ltb_spec rows 0); [unfold rows in *; lia|].
  destruct (Z.ltb_spec cols 0); [unfold cols in *; lia|]. cbn.
  apply create_score_matrix_spec.
Qed.

Lemma smith_waterman_spec :
  ∃ m start_pos score,
    smith_waterman seq1 seq2
    = Returned (start_pos - Z.of_nat (length seq2), score)
    ∧ sw_result seq1 seq2 m start_pos score.
Proof.
  destruct smith_waterman_matrix_spec as (m & sp & sc & Hm & Hres).
  exists m, sp, sc. split; [|done].
  unfold smith_waterman. rewrite Hm. cbn.
  rewrite size32_id by (unfold cols in *; lia).
  rewrite sub32_id; [done|].
  destruct Hres as (_ & _ & _ & [(-> & _)|(_ & Hsp & _)]);
    unfold in_int32, min_int32, max_int32, rows, cols in *; lia.
Qed.

End Fill.

Lemma filled_nonneg seq1 seq2 m : filled seq1 seq2 m → ∀ a b, 0 ≤ cell m a b.
Proof.
  intros (_ & Hz & Hrec) a b.
  destruct (decide (1 ≤ a < Z.of_nat (length seq1) + 1
                    ∧ 1 ≤ b < Z.of_nat (length seq2) + 1)) as [[Ha Hb]|Hout].
  - rewrite (Hrec a b Ha Hb). apply cell_value_nonneg.
  - by rewrite Hz.
Qed.

(** C6. After [smith_waterman] has allocated and filled the matrix for
    two sequences, every entry is at least 0 and the entries of row 0
    and of column 0 are 0.  Each call of [calc_score] keeps it so: the
    entry it writes is the greatest of 0 and the three candidates from
    the diagonal, upper and left neighbours, and no other entry
    changes. *)
Theorem score_matrix_nonneg (seq1 seq2 : list ascii) :
  Z.of_nat (length seq1) < max_int32 →
  Z.of_nat (length seq2) < max_int32 →
  (∃ m start_pos score,
      smith_waterman_matrix seq1 seq2 = Returned (m, start_pos, score)
      ∧ shape m (Z.of_nat (length seq1) + 1) (Z.of_nat (length seq2) + 1)
      ∧ ∀ (a b : nat) row v,
          m !! a = Some row → row !! b = Some v →
          0 ≤ v ∧ (a = 0%nat ∨ b = 0%nat → v = 0))
  ∧ (∀ i j m m',
        in_int32 i → in_int32 j →
        calc_score i j seq1 seq2 m = Returned m' →
        cell m' i j =
          Z.max 0
            (Z.max (add32 (cell m (i - 1) (j - 1)) (similarity seq1 seq2 i j))
               (Z.max (add32 (cell m (i - 1) j) GAP_SCORE)
                      (add32 (cell m i (j - 1)) GAP_SCORE)))
        ∧ (∀ a b, ¬ (a = i ∧ b = j) → cell m' a b = cell m a b)
        ∧ ((∀ a b, 0 ≤ cell m a b) → ∀ a b, 0 ≤ cell m' a b)
        ∧ ((∀ a b, a = 0 ∨ b = 0 → cell m a b = 0) →
           ∀ a b, a = 0 ∨ b = 0 → cell m' a b = 0)).
Proof.
  intros H1 H2. split.
  - destruct (smith_waterman_matrix_spec seq1 seq2) as (m & sp & sc & Hm & Hres);
      [lia..|].
    exists m, sp, sc. split; [done|].
    destruct Hres as (Hf & _). split; [apply Hf|].
    intros a b row v Ha Hb. rewrite <- (cell_lookup m a b row v Ha Hb).
    split; [by eapply filled_nonneg|].
    intros Hab. destruct Hf as (_ & Hz & _). apply Hz. lia.
  - intros i j m m' Hi Hj Hcalc.
    destruct (calc_score_Returned _ _ _ _ _ _ Hi Hj Hcalc) as (Hi1 & Hj1 & Hcell).
    split; [|split; [|split]].
    + rewrite Hcell. by case_decide; [|lia].
    + intros a b Hab. rewrite Hcell. by case_decide.
    + intros Hnn a b. rewrite Hcell. case_decide; [apply cell_value_nonneg|done].
    + intros Hz a b Hab. rewrite Hcell. case_decide; [lia|by apply Hz].
Qed.

(** C7. When no entry of the matrix that [create_score_matrix] has
    filled exceeds zero, the function returns normally with score 0 and
    the sentinel position -1 (and only then does it return the
    sentinel). *)
Theorem no_alignment_sentinel (seq1 seq2 : list ascii) :
  Z.of_nat (length seq1) < max_int32 →
  Z.of_nat (length seq2) < max_int32 →
  ∃ m start_pos score,
    create_score_matrix
      (Z.of_nat (length seq1) + 1) (Z.of_nat (length seq2) + 1) seq1 seq2
      (replicate (Z.to_nat (Z.of_nat (length seq1) + 1))
         (replicate (Z.to_nat (Z.of_nat (length seq2) + 1)) 0))
    = Returned (m, start_pos, score)
    ∧ ((∀ (a b : nat) row v, m !! a = Some row → row !! b = Some v → v ≤ 0)
       ↔ start_pos = -1 ∧ score = 0).
Proof.
  intros H1 H2.
  destruct (create_score_matrix_spec seq1 seq2) as (m & sp & sc & Hm & Hres);
    [lia..|].
  exists m, sp, sc. split; [done|].
  destruct Hres as (Hf & Hge & Hall & Hat). split.
  - intros Hle.
    destruct Hat as [?|(Hp & _ & col & _ & Hc & _)]; [done|].
    destruct (cell_cases m sp col) as [H0|(row & Hrow & Hv)]; [lia|].
    specialize (Hle _ _ _ _ Hrow Hv). lia.
  - intros [-> ->] a b row v Ha Hb.
    rewrite <- (cell_lookup m a b row v Ha Hb). apply Hall.
Qed.

(** C9, as the code has it.  [calc_score] reports an error, the
    [std::out_of_range] of [at()], exactly when one of its lookups is out
    of range: the base at [i-1] or at [j-1], one of the three neighbours,
    or the cell [(i,j)] itself; otherwise it returns true.  It never
    returns false and never clamps an index.  On a matrix of [rows] rows
    of [cols] cells the lookups are in range exactly when
    [1 ≤ i < rows], [1 ≤ j < cols], [i ≤ len(seq1)] and
    [j ≤ len(seq2)]: an index outside the matrix always gives the error,
    and so do row 0, column 0 and an index beyond the sequences, which
    lie inside the matrix. *)
Theorem calc_score_throws_iff_access_fails (seq1 seq2 : list ascii)
    (m : matrix) (i j : Z) :
  in_int32 i → in_int32 j →
  ((∃ m', calc_score i j seq1 seq2 m = Returned m')
   ↔ accesses_in_range seq1 seq2 m i j)
  ∧ (calc_score i j seq1 seq2 m = OutOfRange
     ↔ ¬ accesses_in_range seq1 seq2 m i j)
  ∧ (∀ rows cols,
        shape m rows cols →
        accesses_in_range seq1 seq2 m i j
        ↔ 1 ≤ i < rows ∧ 1 ≤ j < cols
          ∧ i ≤ Z.of_nat (length seq1) ∧ j ≤ Z.of_nat (length seq2)).
Proof.
  intros Hi32 Hj32.
  assert (Hret : (∃ m', calc_score i j seq1 seq2 m = Returned m')
                 ↔ accesses_in_range seq1 seq2 m i j).
  { split.
    - intros [m' Hm']. by eapply calc_score_Returned_access.
    - by apply calc_score_access_Returned. }
  split; [done|]. split.
  - split.
    + intros Hout Hacc. apply Hret in Hacc as [m' Hm']. congruence.
    + intros Hnacc.
      destruct (calc_score_outcome seq1 seq2 m i j) as [|Hm']; [done|].
      by apply Hret in Hm'.
  - intros rows cols Hs. unfold accesses_in_range.
    rewrite !(in_matrix_shape m rows cols) by done. lia.
Qed.

(** ** The trial loop *)

Lemma length_repeat_motif motif k :
  length (repeat_motif motif k) = (k * length motif)%nat.
Proof. induction k as [|k IH]; cbn; [done|]. rewrite length_app. lia. Qed.

Lemma length_var_realign_string pre_flank post_flank motif k :
  0 ≤ k →
  Z.of_nat (length (var_realign_string pre_flank post_flank motif k))
  = Z.of_nat (length pre_flank) + k * Z.of_nat (length motif)
    + Z.of_nat (length post_flank).
Proof.
  intros Hk. unfold var_realign_string.
  rewrite !length_app, length_repeat_motif. lia.
Qed.

Lemma elem_of_snoc {A} (l : list A) (x y : A) : y ∈ l ++ [x] ↔ y ∈ l ∨ y = x.
Proof. by rewrite elem_of_app, list_elem_of_singleton. Qed.

Lemma better_gt c p sc t :
  sc < t_score t → better (c, p, sc) t = (t_nCopy t, t_pos t, t_score t).
Proof.
  intros H. unfold better. rewrite Z.gtb_ltb.
  by destruct (Z.ltb_spec sc (t_score t)); [|lia].
Qed.

Lemma better_le c p sc t : t_score t ≤ sc → better (c, p, sc) t = (c, p, sc).
Proof.
  intros H. unfold better. rewrite Z.gtb_ltb.
  by destruct (Z.ltb_spec sc (t_score t)); [lia|].
Qed.

Lemma select_snoc best log t : select best (log ++ [t]) = better (select best log) t.
Proof. unfold select. by rewrite foldl_app. Qed.

Lemma realign_loop_spec seq pre_flank post_flank motif n :
  ∀ k best log,
    (∀ j, k ≤ j < k + Z.of_nat n →
          ∃ t, trial_of seq pre_flank post_flank motif j = Returned t) →
    ∃ new,
      realign_loop seq pre_flank post_flank motif n k best log
      = Returned (select best new, log ++ new)
      ∧ (length new ≤ n)%nat
      ∧ (∀ idx t, new !! idx = Some t →
                  trial_of seq pre_flank post_flank motif (k + Z.of_nat idx)
                  = Returned t)
      ∧ stops_at_perfect seq new
      ∧ (length new = n
         ∨ ∃ t, last new = Some t ∧ t_score t = perfect_score seq).
Proof.
  induction n as [|n IH]; intros k best log Hall.
  - exists []. cbn. rewrite app_nil_r. repeat split; try done. by left.
  - destruct (Hall k) as [t Ht]; [lia|].
    pose proof Ht as Ht'. unfold trial_of in Ht'.
    destruct (smith_waterman _ seq) as [[pos sc]| | | |] eqn:Hsw;
      cbn in Ht'; try discriminate. injection Ht' as <-.
    cbn [realign_loop]. destruct best as [[mc mp] ms]. rewrite Hsw. cbn.
    fold (perfect_score seq).
    destruct (Z.eqb_spec sc (perfect_score seq)) as [Hperf|Hperf].
    + exists [Trial k pos sc]. cbn. repeat split; try done.
      * lia.
      * intros [|idx] t; cbn; [|done]. intros [= <-].
        by replace (k + Z.of_nat 0) with k by lia.
      * intros [|idx] t; cbn; done.
      * right. by exists (Trial k pos sc).
    + destruct (IH (k + 1)
                  (better (mc, mp, ms) (Trial k pos sc))
                  (log ++ [Trial k pos sc]))
        as (new & Hloop & Hlen & Htr & Hstop & Hlast).
      { intros j Hj. apply Hall. lia. }
      exists (Trial k pos sc :: new).
      split; [cbn in Hloop |- *; rewrite Hloop, <- app_assoc; done|].
      split; [cbn; lia|]. split; [|split].
      * intros [|idx] t; cbn.
        -- intros [= <-]. by replace (k + Z.of_nat 0) with k by lia.
        -- intros Hidx. replace (k + Z.of_nat (S idx)) with (k + 1 + Z.of_nat idx) by lia.
           by apply Htr.
      * intros [|idx] t; cbn.
        -- intros [= <-] Hp. done.
        -- intros Hidx Hp. f_equal. by eapply Hstop.
      * destruct Hlast as [Hl|(t & Hl & Hp)]; [left; cbn; lia|right].
        exists t. split; [|done].
        destruct new as [|t0 new]; [done|]. by rewrite last_cons_cons.
Qed.

Lemma select_spec log :
  ∀ best,
    (select best log = best ∧ ∀ t, t ∈ log → t_score t ≤ best.2)
    ∨ (∃ idx t, log !! idx = Some t
                ∧ select best log = (t_nCopy t, t_pos t, t_score t)
                ∧ best.2 < t_score t
                ∧ (∀ t', t' ∈ log → t_score t' ≤ t_score t)
                ∧ (∀ idx' t', log !! idx' = Some t' →
                              t_score t' = t_score t → (idx ≤ idx')%nat)).
Proof.
  induction log as [|t log IH] using rev_ind; intros best.
  - left. split; [done|]. intros t Ht. by apply elem_of_nil in Ht.
  - rewrite select_snoc.
    destruct (select best log) as [[c p] sc] eqn:Hsel.
    destruct (Z.lt_ge_cases sc (t_score t)) as [Hlt|Hge].
    + rewrite better_gt by done. right. exists (length log), t. split; [apply list_lookup_middle; done|].
      split; [done|].
      destruct (IH best) as [(Heq & Hle)|(i0 & t0 & Hi0 & Heq & Hb & Hmax & _)];
        rewrite Hsel in Heq.
      * subst best. cbn in *. split; [done|]. split.
        -- intros t' [Ht'| ->]%elem_of_snoc; [|lia].
           specialize (Hle _ Ht'). lia.
        -- intros idx' t' Hidx' Hsc.
           destruct (decide (idx' < length log)%nat) as [Hin|]; [|lia].
           rewrite lookup_app_l in Hidx' by done.
           apply list_elem_of_lookup_2, Hle in Hidx'. lia.
      * injection Heq as -> -> ->. split; [lia|]. split.
        -- intros t' [Ht'| ->]%elem_of_snoc; [|lia].
           specialize (Hmax _ Ht'). lia.
        -- intros idx' t' Hidx' Hsc.
           destruct (decide (idx' < length log)%nat) as [Hin|]; [|lia].
           rewrite lookup_app_l in Hidx' by done.
           apply list_elem_of_lookup_2, Hmax in Hidx'. lia.
    + rewrite better_le by done.
      destruct (IH best) as [(Heq & Hle)|(i0 & t0 & Hi0 & Heq & Hb & Hmax & Hfirst)];
        rewrite Hsel in Heq.
      * left. subst best. cbn in *. split; [done|].
        intros t' [Ht'| ->]%elem_of_snoc; [by apply Hle|lia].
      * right. exists i0, t0. injection Heq as -> -> ->.
        split; [by apply lookup_app_l_Some|]. split; [done|]. split; [done|].
        split.
        -- intros t' [Ht'| ->]%elem_of_snoc; [by apply Hmax|lia].
        -- intros idx' t' Hidx' Hsc.
           destruct (decide (idx' < length log)%nat) as [Hin|Hout].
           ++ rewrite lookup_app_l in Hidx' by done. by eapply Hfirst.
           ++ apply lookup_lt_Some in Hi0. lia.
Qed.

Lemma trial_of_nCopy seq pre_flank post_flank motif k t :
  trial_of seq pre_flank post_flank motif k = Returned t → t_nCopy t = k.
Proof.
  unfold trial_of. destruct (smith_waterman _ _) as [[pos sc]| | | |]; cbn; try done.
  by intros [= <-].
Qed.

Lemma period_pos (motif : list ascii) : motif ≠ [] → 0 < Z.of_nat (length motif).
Proof. destruct motif; [done|cbn; lia]. Qed.

Section Trials.

Variables seq pre_flank post_flank motif : list ascii.

Hypothesis motif_nonempty : motif ≠ [].

(** The longest string the loop can build, with the extra row of the
    matrix, is within the range of [int32_t]. *)
Hypothesis fits :
  Z.of_nat (length pre_flank) + Z.of_nat (length seq)
  + Z.of_nat (length motif) + Z.of_nat (length post_flank) < max_int32.

Lemma trial_bound_range :
  2 ≤ trial_bound seq motif ≤ Z.of_nat (length seq) + 2
  ∧ (trial_bound seq motif - 1) * Z.of_nat (length motif)
    ≤ Z.of_nat (length seq) + Z.of_nat (length motif).
Proof.
  pose proof (period_pos motif motif_nonempty) as Hp. unfold trial_bound.
  pose proof (Z.mul_quot_le (Z.of_nat (length seq)) (Z.of_nat (length motif))) as Hq.
  pose proof (Z.quot_pos (Z.of_nat (length seq)) (Z.of_nat (length motif))).
  nia.
Qed.

Lemma trial_returns k :
  0 ≤ k < trial_bound seq motif →
  ∃ m start_pos score,
    trial_of seq pre_flank post_flank motif k
    = Returned (Trial k (start_pos - Z.of_nat (length seq)) score)
    ∧ sw_result (var_realign_string pre_flank post_flank motif k) seq
        m start_pos score.
Proof.
  intros Hk. pose proof trial_bound_range as (Hb & Hbp).
  pose proof (period_pos motif motif_nonempty).
  destruct (smith_waterman_spec
              (var_realign_string pre_flank post_flank motif k) seq)
    as (m & sp & sc & Hsw & Hres).
  - rewrite length_var_realign_string by lia. nia.
  - lia.
  - exists m, sp, sc. split; [|done]. unfold trial_of. by rewrite Hsw.
Qed.

Lemma realign_trials_spec g :
  ∃ log,
    realign_trials seq pre_flank post_flank motif g
    = (Returned (select (0, 0, 0) log, log), Globals (margin_of motif))
    ∧ 1 ≤ Z.of_nat (length log) ≤ trial_bound seq motif
    ∧ (∀ idx t, log !! idx = Some t →
                trial_of seq pre_flank post_flank motif (Z.of_nat idx)
                = Returned t)
    ∧ stops_at_perfect seq log
    ∧ (Z.of_nat (length log) = trial_bound seq motif
       ∨ ∃ t, last log = Some t ∧ t_score t = perfect_score seq).
Proof.
  pose proof trial_bound_range as (Hb & Hbp). pose proof (period_pos motif motif_nonempty) as Hp.
  unfold realign_trials.
  rewrite !size32_id by lia.
  destruct (Z.eqb_spec (Z.of_nat (length motif)) 0) as [?|_]; [lia|].
  assert (0 ≤ Z.of_nat (length seq) ÷ Z.of_nat (length motif))
    by (apply Z.quot_pos; lia).
  unfold trial_bound in Hb.
  rewrite int32_id by (unfold in_int32, min_int32, max_int32 in *; lia).
  rewrite add32_id by (unfold in_int32, min_int32, max_int32 in *; lia).
  fold (trial_bound seq motif) in Hb |- *.
  destruct (realign_loop_spec seq pre_flank post_flank motif
              (Z.to_nat (trial_bound seq motif)) 0 (0, 0, 0) [])
    as (log & Hloop & Hlen & Htr & Hstop & Hlast).
  { intros j Hj. destruct (trial_returns j) as (m & sp & sc & Ht & _); [lia|].
    eauto. }
  exists log. rewrite Hloop. cbn [app].
  split; [by rewrite <- (size32_id motif) by lia|].
  split; [|split; [|split; [done|]]].
  - split; [|lia].
    destruct Hlast as [Hl|(t & Hl & _)]; [lia|]. destruct log; [done|cbn; lia].
  - intros idx t Hidx. apply Htr in Hidx. by rewrite Z.add_0_l in Hidx.
  - destruct Hlast as [Hl|?]; [left; lia|by right].
Qed.

End Trials.

(** C2, as the code has it.  For a non-empty motif the realigner calls
    [smith_waterman] for every copy count from 0 up to
    [len(read) / period + 1] inclusive, unless a trial with a smaller
    copy count reached the perfect score, and for no copy count beyond
    [len(read) / period + 1]. *)
Theorem realign_tries_every_copy_count
    (seq pre_flank post_flank motif : list ascii) (g : globals) :
  motif ≠ [] → inputs_fit seq pre_flank post_flank motif →
  ∃ best log g',
    realign_trials seq pre_flank post_flank motif g = (Returned (best, log), g')
    ∧ (∀ t, t ∈ log →
            0 ≤ t_nCopy t ≤ Z.of_nat (length seq) ÷ Z.of_nat (length motif) + 1
            ∧ trial_of seq pre_flank post_flank motif (t_nCopy t) = Returned t)
    ∧ tries_all_up_to seq
        (Z.of_nat (length seq) ÷ Z.of_nat (length motif) + 1) log.
Proof.
  intros Hne Hfit.
  destruct (realign_trials_spec seq pre_flank post_flank motif Hne Hfit g)
    as (log & Hrun & Hlen & Htr & Hstop & Hlast).
  unfold trial_bound in *.
  eexists _, log, _. split; [exact Hrun|]. split.
  - intros t [idx Hidx]%list_elem_of_lookup.
    pose proof (lookup_lt_Some _ _ _ Hidx).
    pose proof (Htr _ _ Hidx) as Ht.
    rewrite (trial_of_nCopy _ _ _ _ _ _ Ht). split; [lia|done].
  - intros k Hk.
    destruct (decide (k < Z.of_nat (length log))) as [Hin|Hout].
    + left. destruct (lookup_lt_is_Some_2 log (Z.to_nat k)) as [t Ht]; [lia|].
      exists t. split; [by eapply list_elem_of_lookup_2|].
      apply Htr, trial_of_nCopy in Ht. lia.
    + right. destruct Hlast as [Hl|(t & Hl & Hp)]; [lia|].
      exists t. rewrite last_lookup in Hl.
      split; [by eapply list_elem_of_lookup_2|]. split; [|done].
      apply Htr, trial_of_nCopy in Hl. lia.
Qed.

(** C5, as the code has it.  The realigner returns; when some trial
    scored above 0, the triple it returns is that of the trial with the
    greatest score, the one with the smallest copy count among the
    trials of that score; when no trial scored above 0 it returns
    (0, 0, 0), the initial values.  No trial follows one that reached
    the perfect score. *)
Theorem realign_returns_first_best_trial
    (seq pre_flank post_flank motif : list ascii) (g : globals) :
  motif ≠ [] → inputs_fit seq pre_flank post_flank motif →
  ∃ r log g',
    realign_trials seq pre_flank post_flank motif g = (Returned (r, log), g')
    ∧ expansion_aware_realign seq pre_flank post_flank motif g = (Returned r, g')
    ∧ (∀ idx t, log !! idx = Some t →
                trial_of seq pre_flank post_flank motif (Z.of_nat idx) = Returned t)
    ∧ ((∃ t, t ∈ log ∧ 0 < t_score t) → first_best_trial r log)
    ∧ ((∀ t, t ∈ log → t_score t ≤ 0) → r = (0, 0, 0))
    ∧ stops_at_perfect seq log.
Proof.
  intros Hne Hfit.
  destruct (realign_trials_spec seq pre_flank post_flank motif Hne Hfit g)
    as (log & Hrun & Hlen & Htr & Hstop & Hlast).
  eexists _, log, _. split; [exact Hrun|].
  split; [unfold expansion_aware_realign; by rewrite Hrun|].
  split; [done|]. split; [|split; [|done]].
  - intros (t0 & Ht0 & Hpos).
    destruct (select_spec log (0, 0, 0))
      as [(_ & Hle)|(idx & t & Hidx & -> & _ & Hmax & Hfirst)].
    + specialize (Hle _ Ht0). cbn in Hle. lia.
    + exists t. split; [by eapply list_elem_of_lookup_2|]. split; [done|].
      split; [done|].
      intros t' [idx' Hidx']%list_elem_of_lookup Hsc.
      specialize (Hfirst _ _ Hidx' Hsc).
      apply Htr, trial_of_nCopy in Hidx, Hidx'. lia.
  - intros Hle.
    destruct (select_spec log (0, 0, 0))
      as [(-> & _)|(idx & t & Hidx & _ & Hlt & _)]; [done|].
    apply list_elem_of_lookup_2, Hle in Hidx. cbn in Hlt. lia.
Qed.

(** C10.  With an empty motif the realigner divides by zero when it
    first evaluates the bound of its loop, whatever the other
    arguments; with a non-empty motif it returns a result. *)
Theorem realign_total_only_for_nonempty_motif :
  (∀ seq pre_flank post_flank g,
      (expansion_aware_realign seq pre_flank post_flank [] g).1 = DivideByZero)
  ∧ (∀ seq pre_flank post_flank motif g,
        motif ≠ [] → inputs_fit seq pre_flank post_flank motif →
        ∃ r, (expansion_aware_realign seq pre_flank post_flank motif g).1
             = Returned r).
Proof.
  split.
  - intros seq pre_flank post_flank g. reflexivity.
  - intros seq pre_flank post_flank motif g Hne Hfit.
    destruct (realign_trials_spec seq pre_flank post_flank motif Hne Hfit g)
      as (log & Hrun & _).
    unfold expansion_aware_realign. rewrite Hrun. by eexists.
Qed.

(** ** The classifier *)


Lemma classify_false_only_unclassified (seq motif : list ascii)
    (start_pos nCopy score prefix_length : Z) (g : globals) :
  classify_realigned_read seq motif start_pos nCopy score prefix_length g
  = ReturnedFalse →
  geometry_unclassified seq motif start_pos nCopy prefix_length g = true
  ∧ score_threshold seq ≤ score ∧ nCopy ≠ 0.
Proof.
  unfold geometry_unclassified, classify_realigned_read. cbv zeta.
  destruct (Z.ltb_spec score (score_threshold seq)); [done|].
  destruct (Z.eqb_spec nCopy 0); [done|]. cbn.
  repeat match goal with
         | |- context [if ?b then _ else _] => destruct b eqn:?; cbn; try done
         end.
Qed.

(** ** Exact occurrences *)

Lemma match_ending_0 seq1 seq2 a : match_ending seq1 seq2 a 0.
Proof. split; [lia|done]. Qed.

Lemma match_ending_S seq1 seq2 a b c1 c2 :
  seq1 !! a = Some c1 → seq2 !! b = Some c2 →
  match_ending seq1 seq2 (S a) (S b) ↔ match_ending seq1 seq2 a b ∧ c1 = c2.
Proof.
  intros H1 H2. unfold match_ending.
  replace (S a - S b)%nat with (a - b)%nat by lia.
  rewrite (take_S_r seq2 b c2) by done.
  split.
  - intros [Hle Heq].
    rewrite (take_S_r _ b c1) in Heq.
    + apply app_inj_tail in Heq as [? ?]. split; [split; [lia|done]|done].
    + rewrite lookup_drop. by replace (a - b + b)%nat with a by lia.
  - intros [[Hle Heq] ->]. split; [lia|].
    rewrite (take_S_r _ b c2).
    + by rewrite Heq.
    + rewrite lookup_drop. by replace (a - b + b)%nat with a by lia.
Qed.

Lemma occurs_match_ending hyp read :
  occurs read hyp ↔
  ∃ a, (a ≤ length hyp)%nat ∧ match_ending hyp read a (length read).
Proof.
  unfold occurs, occurs_at, match_ending. split.
  - intros (off & Hlen & H).
    exists (off + length read)%nat. split; [lia|]. split; [lia|].
    replace (off + length read - length read)%nat with off by lia.
    by rewrite firstn_all.
  - intros (a & Ha & Hle & H). exists (a - length read)%nat.
    rewrite firstn_all in H. split; [lia|done].
Qed.

(** ** Scores under a scoring scheme that rewards matches only *)

Section Scheme.

Hypothesis match_pos : 0 < MATCH_SCORE.
Hypothesis mismatch_lt : MISMATCH_SCORE < MATCH_SCORE.
Hypothesis gap_neg : GAP_SCORE < 0.
Hypothesis mismatch_32 : min_int32 ≤ MISMATCH_SCORE.
Hypothesis gap_32 : min_int32 ≤ GAP_SCORE.

Section Cells.

Variables seq1 seq2 : list ascii.

(** The perfect score of the read fits in an [int32_t]. *)
Hypothesis perfect_32 : Z.of_nat (length seq2) * MATCH_SCORE ≤ max_int32.

Lemma similarity_le i j :
MISMATCH_SCORE ≤ similarity seq1 seq2 i j ≤ MATCH_SCORE.
Proof.
unfold similarity.
repeat case_match; lia.
Qed.

Lemma similarity_match a b c1 c2 :
seq1 !! a = Some c1 → seq2 !! b = Some c2 →
similarity seq1 seq2 (Z.of_nat (S a)) (Z.of_nat (S b)) = MATCH_SCORE ↔ c1 = c2.
Proof.
intros H1 H2. unfold similarity.
replace (Z.to_nat (Z.of_nat (S a) - 1)) with a by lia.
replace (Z.to_nat (Z.of_nat (S b) - 1)) with b by lia.
rewrite H1, H2. destruct (Ascii.eqb_spec c1 c2); [done|]. split; [lia|done].
Qed.

Lemma cell_value_exact sim d u l b :
MISMATCH_SCORE ≤ sim ≤ MATCH_SCORE →
1 ≤ b ≤ Z.of_nat (length seq2) →
0 ≤ d ≤ (b - 1) * MATCH_SCORE → 0 ≤ u ≤ b * MATCH_SCORE →
0 ≤ l ≤ (b - 1) * MATCH_SCORE →
cell_value sim d u l =
Z.max 0 (Z.max (d + sim) (Z.max (u + GAP_SCORE) (l + GAP_SCORE))).
Proof.
intros Hsim Hb Hd Hu Hl. unfold cell_value.
assert (b * MATCH_SCORE ≤ Z.of_nat (length seq2) * MATCH_SCORE)
  by (apply Z.mul_le_mono_nonneg_r; lia).
rewrite !add32_id; [done|..];
  unfold in_int32, min_int32, max_int32 in *; lia.
Qed.

Lemma cell_bounds m :
filled seq1 seq2 m →
∀ a b, 0 ≤ a → 0 ≤ b →
       0 ≤ cell m a b ∧ cell m a b ≤ a * MATCH_SCORE
       ∧ cell m a b ≤ b * MATCH_SCORE.
Proof.
intros (Hsh & Hz & Hrec).
assert (Hn : ∀ n : nat, ∀ a b, 0 ≤ a → 0 ≤ b → a + b ≤ Z.of_nat n →
             0 ≤ cell m a b ∧ cell m a b ≤ a * MATCH_SCORE
             ∧ cell m a b ≤ b * MATCH_SCORE).
{ induction n as [|n IH]; intros a b Ha Hb Hab.
  - rewrite Hz by lia. lia.
  - destruct (decide (1 ≤ a < Z.of_nat (length seq1) + 1
                      ∧ 1 ≤ b < Z.of_nat (length seq2) + 1)) as [[Ha' Hb']|Hout].
    + rewrite (Hrec a b Ha' Hb').
      pose proof (similarity_le a b).
      destruct (IH (a - 1) (b - 1)) as (? & ? & ?); [lia..|].
      destruct (IH (a - 1) b) as (? & ? & ?); [lia..|].
      destruct (IH a (b - 1)) as (? & ? & ?); [lia..|].
      rewrite (cell_value_exact _ _ _ _ b) by lia. lia.
    + rewrite Hz by done.
      pose proof (Z.mul_nonneg_nonneg a MATCH_SCORE).
      pose proof (Z.mul_nonneg_nonneg b MATCH_SCORE). lia. }
intros a b Ha Hb. apply (Hn (Z.to_nat (a + b))); lia.
Qed.

Lemma cell_perfect m :
filled seq1 seq2 m →
∀ b a : nat, (a ≤ length seq1)%nat → (b ≤ length seq2)%nat →
  cell m (Z.of_nat a) (Z.of_nat b) = Z.of_nat b * MATCH_SCORE
  ↔ match_ending seq1 seq2 a b.
Proof.
intros Hf. pose proof (cell_bounds m Hf) as Hbd.
destruct Hf as (Hsh & Hz & Hrec).
induction b as [|b IH]; intros a Ha Hb.
- rewrite Hz by lia. split; [intros _; apply match_ending_0|lia].
- destruct a as [|a].
  + rewrite Hz by lia. split; [lia|]. intros [? _]. lia.
  + destruct (lookup_lt_is_Some_2 seq1 a) as [c1 Hc1]; [lia|].
    destruct (lookup_lt_is_Some_2 seq2 b) as [c2 Hc2]; [lia|].
    rewrite (match_ending_S _ _ _ _ _ _ Hc1 Hc2).
    rewrite <- (similarity_match _ _ _ _ Hc1 Hc2).
    rewrite <- (IH a) by lia.
    rewrite Hrec by lia.
    pose proof (similarity_le (Z.of_nat (S a)) (Z.of_nat (S b))).
    replace (Z.of_nat (S a) - 1) with (Z.of_nat a) by lia.
    replace (Z.of_nat (S b) - 1) with (Z.of_nat b) by lia.
    destruct (Hbd (Z.of_nat a) (Z.of_nat b)) as (? & ? & ?); [lia..|].
    destruct (Hbd (Z.of_nat a) (Z.of_nat (S b))) as (? & ? & ?); [lia..|].
    destruct (Hbd (Z.of_nat (S a)) (Z.of_nat b)) as (? & ? & ?); [lia..|].
    rewrite (cell_value_exact _ _ _ _ (Z.of_nat (S b))) by lia.
    lia.
Qed.

Lemma sw_score_le m start_pos score :
sw_result seq1 seq2 m start_pos score →
score ≤ Z.of_nat (length seq1) * MATCH_SCORE
∧ score ≤ Z.of_nat (length seq2) * MATCH_SCORE.
Proof.
intros (Hf & Hge & Hall & Hat).
pose proof (Z.mul_nonneg_nonneg (Z.of_nat (length seq1)) MATCH_SCORE).
pose proof (Z.mul_nonneg_nonneg (Z.of_nat (length seq2)) MATCH_SCORE).
destruct Hat as [(_ & ->)|(Hp & Hsp & col & Hcol & Hc & _)]; [lia|].
destruct (cell_bounds m Hf start_pos col) as (_ & Ha & Hb); [lia..|].
assert (start_pos * MATCH_SCORE ≤ Z.of_nat (length seq1) * MATCH_SCORE)
  by (apply Z.mul_le_mono_nonneg_r; lia).
assert (col * MATCH_SCORE ≤ Z.of_nat (length seq2) * MATCH_SCORE)
  by (apply Z.mul_le_mono_nonneg_r; lia).
lia.
Qed.

(** A perfect score sits in the last column, at the end of an exact
  occurrence of the read. *)
Lemma sw_perfect_cell m start_pos score :
sw_result seq1 seq2 m start_pos score →
0 < score → score = Z.of_nat (length seq2) * MATCH_SCORE →
∃ a : nat, start_pos = Z.of_nat a ∧ (a ≤ length seq1)%nat
           ∧ match_ending seq1 seq2 a (length seq2).
Proof.
intros (Hf & Hge & Hall & Hat) Hpos Hsc.
destruct Hat as [(_ & ->)|(Hp & Hsp & col & Hcol & Hc & _)]; [lia|].
destruct (cell_bounds m Hf start_pos col) as (_ & _ & Hb); [lia..|].
assert (col = Z.of_nat (length seq2)) as ->.
{ destruct (decide (col = Z.of_nat (length seq2))) as [|Hne]; [done|].
  assert (col * MATCH_SCORE ≤ (Z.of_nat (length seq2) - 1) * MATCH_SCORE)
    by (apply Z.mul_le_mono_nonneg_r; lia).
  lia. }
exists (Z.to_nat start_pos). split; [lia|]. split; [lia|].
apply (cell_perfect m Hf); [lia..|].
replace (Z.of_nat (Z.to_nat start_pos)) with start_pos by lia. lia.
Qed.

Lemma sw_score_perfect m start_pos score :
sw_result seq1 seq2 m start_pos score →
score = Z.of_nat (length seq2) * MATCH_SCORE ↔ occurs seq2 seq1.
Proof.
intros Hres. rewrite occurs_match_ending. split.
- intros Hsc. destruct (decide (length seq2 = 0%nat)) as [H0|H0].
  + exists 0%nat. split; [lia|]. rewrite H0. apply match_ending_0.
  + assert (0 < Z.of_nat (length seq2) * MATCH_SCORE)
      by (apply Z.mul_pos_pos; lia).
    destruct (sw_perfect_cell m start_pos score Hres) as (a & _ & ? & ?);
      [lia|done|]. by exists a.
- intros (a & Ha & Hm).
  pose proof (sw_score_le _ _ _ Hres) as [_ Hle].
  destruct Hres as (Hf & _ & Hall & _).
  apply (cell_perfect m Hf) in Hm; [|lia..].
  specialize (Hall (Z.of_nat a) (Z.of_nat (length seq2))). lia.
Qed.

End Cells.

Section Winner.

Variables seq pre_flank post_flank motif : list ascii.

Hypothesis motif_nonempty : motif ≠ [].
Hypothesis fits : inputs_fit seq pre_flank post_flank motif.
Hypothesis perfect_32 : Z.of_nat (length seq) * MATCH_SCORE ≤ max_int32.

Lemma perfect_score_exact :
  perfect_score seq = Z.of_nat (length seq) * MATCH_SCORE.
Proof.
  unfold perfect_score, inputs_fit in *. rewrite size32_id by lia.
  apply mul32_id. unfold in_int32, min_int32, max_int32 in *.
  pose proof (Z.mul_nonneg_nonneg (Z.of_nat (length seq)) MATCH_SCORE). lia.
Qed.

Lemma realign_winner_spec g :
  ∃ nCopy pos score,
    expansion_aware_realign seq pre_flank post_flank motif g
    = (Returned (nCopy, pos, score), Globals (margin_of motif))
    ∧ 0 ≤ nCopy < trial_bound seq motif
    ∧ score ≤ Z.of_nat (length seq) * MATCH_SCORE
    ∧ (score = Z.of_nat (length seq) * MATCH_SCORE
       ↔ occurs seq (var_realign_string pre_flank post_flank motif nCopy)).
Proof.
  destruct (realign_trials_spec seq pre_flank post_flank motif
              motif_nonempty fits g)
    as (log & Hrun & Hlen & Htr & Hstop & Hlast).
  unfold expansion_aware_realign. rewrite Hrun. cbn.
  destruct (select_spec log (0, 0, 0))
    as [(-> & Hle)|(idx & t & Hidx & -> & _ & _ & _)].
  - exists 0, 0, 0. split; [done|]. split; [lia|].
    destruct (lookup_lt_is_Some_2 log 0) as [t0 Ht0]; [lia|].
    pose proof (Htr _ _ Ht0) as Htrial.
    destruct (trial_returns seq pre_flank post_flank motif
                motif_nonempty fits 0)
      as (m & sp & sc & Ht & Hres); [lia|].
    change (Z.of_nat 0) with 0 in Htrial.
    rewrite Ht in Htrial. injection Htrial as <-.
    apply list_elem_of_lookup_2, Hle in Ht0. cbn in Ht0.
    pose proof (sw_score_le _ _ perfect_32 _ _ _ Hres) as [_ Hub].
    pose proof (sw_score_perfect _ _ perfect_32 _ _ _ Hres) as Hiff.
    destruct Hres as (_ & Hge & _).
    assert (sc = 0) as -> by lia. split; [lia|done].
  - pose proof (lookup_lt_Some _ _ _ Hidx).
    pose proof (Htr _ _ Hidx) as Htrial.
    destruct (trial_returns seq pre_flank post_flank motif
                motif_nonempty fits (Z.of_nat idx))
      as (m & sp & sc & Ht & Hres); [lia|].
    rewrite Ht in Htrial. injection Htrial as <-. cbn.
    eexists _, _, _. split; [done|]. split; [lia|].
    pose proof (sw_score_le _ _ perfect_32 _ _ _ Hres) as [_ Hub].
    pose proof (sw_score_perfect _ _ perfect_32 _ _ _ Hres) as Hiff.
    done.
Qed.

(** A read that is exactly the string built for copy count [K] is
    realigned to [K], at offset 0, with the perfect score. *)
Lemma exact_read_wins g K :
  0 ≤ K < trial_bound seq motif →
  var_realign_string pre_flank post_flank motif K = seq →
  (0 < length seq)%nat →
  expansion_aware_realign seq pre_flank post_flank motif g
  = (Returned (K, 0, Z.of_nat (length seq) * MATCH_SCORE),
     Globals (margin_of motif)).
Proof.
  intros HK Hseq Hn.
  pose proof (period_pos motif motif_nonempty) as Hp.
  destruct (realign_trials_spec seq pre_flank post_flank motif
              motif_nonempty fits g)
    as (log & Hrun & Hlen & Htr & Hstop & Hlast).
  unfold expansion_aware_realign. rewrite Hrun. cbn.
  assert (HlenK : Z.of_nat (length seq)
                  = Z.of_nat (length pre_flank) + K * Z.of_nat (length motif)
                    + Z.of_nat (length post_flank)).
  { rewrite <- Hseq at 1. apply length_var_realign_string. lia. }
  assert (Hperf : 0 < Z.of_nat (length seq) * MATCH_SCORE)
    by (apply Z.mul_pos_pos; lia).
  assert (F1 : ∀ idx t, log !! idx = Some t → Z.of_nat idx < K →
               t_score t < Z.of_nat (length seq) * MATCH_SCORE).
  { intros idx t Hidx Hlt. pose proof (Htr _ _ Hidx) as Htrial.
    destruct (trial_returns seq pre_flank post_flank motif
                motif_nonempty fits (Z.of_nat idx))
      as (m & sp & sc & Ht & Hres); [lia|].
    rewrite Ht in Htrial. injection Htrial as <-. cbn.
    pose proof (sw_score_le _ _ perfect_32 _ _ _ Hres) as [Hub _].
    rewrite length_var_realign_string in Hub by lia.
    assert ((Z.of_nat (length pre_flank) + Z.of_nat idx * Z.of_nat (length motif)
             + Z.of_nat (length post_flank)) * MATCH_SCORE
            ≤ (Z.of_nat (length seq) - 1) * MATCH_SCORE)
      by (apply Z.mul_le_mono_nonneg_r; nia).
    lia. }
  assert (F2 : trial_of seq pre_flank post_flank motif K
               = Returned (Trial K 0 (Z.of_nat (length seq) * MATCH_SCORE))).
  { destruct (trial_returns seq pre_flank post_flank motif
                motif_nonempty fits K)
      as (m & sp & sc & Ht & Hres); [lia|].
    rewrite Ht. rewrite Hseq in Hres.
    assert (sc = Z.of_nat (length seq) * MATCH_SCORE) as Hsc.
    { apply (sw_score_perfect _ _ perfect_32 _ _ _ Hres).
      exists 0%nat. split; [lia|]. by rewrite drop_0, firstn_all. }
    destruct (sw_perfect_cell _ _ perfect_32 _ _ _ Hres)
      as (a & -> & Ha & Hle & _); [lia|done|].
    do 3 f_equal; lia. }
  assert (F3 : length log = S (Z.to_nat K)).
  { assert (K < Z.of_nat (length log)) as Hlong.
    { destruct (decide (K < Z.of_nat (length log))) as [|Hshort]; [done|].
      destruct Hlast as [?|(t & Hl & Hs)]; [lia|].
      rewrite last_lookup in Hl. rewrite perfect_score_exact in Hs.
      apply F1 in Hl; lia. }
    destruct (lookup_lt_is_Some_2 log (Z.to_nat K)) as [t Ht]; [lia|].
    pose proof (Htr _ _ Ht) as Htrial.
    replace (Z.of_nat (Z.to_nat K)) with K in Htrial by lia.
    rewrite F2 in Htrial. injection Htrial as <-.
    symmetry. apply (Hstop _ _ Ht). cbn. by rewrite perfect_score_exact. }
  destruct (lookup_lt_is_Some_2 log (Z.to_nat K)) as [tK HtK]; [lia|].
  pose proof (Htr _ _ HtK) as Htrial.
  replace (Z.of_nat (Z.to_nat K)) with K in Htrial by lia.
  rewrite F2 in Htrial. injection Htrial as <-.
  destruct (select_spec log (0, 0, 0))
    as [(_ & Hle)|(idx & t & Hidx & -> & _ & Hmax & _)].
  - apply list_elem_of_lookup_2, Hle in HtK. cbn in HtK. lia.
  - pose proof (lookup_lt_Some _ _ _ Hidx).
    pose proof (Hmax _ (list_elem_of_lookup_2 _ _ _ HtK)) as Hge. cbn in Hge.
    destruct (decide (Z.of_nat idx < K)) as [Hlt|Hnlt].
    + pose proof (F1 _ _ Hidx Hlt). lia.
    + replace idx with (Z.to_nat K) in Hidx by lia.
      rewrite HtK in Hidx. by injection Hidx as <-.
Qed.

End Winner.

End Scheme.

(** C4. Under a scoring scheme that rewards matches only, the score the
    realigner reports is at most [len(read) * MATCH_SCORE], and it is
    equal to it exactly when the read occurs, base for base and over
    its full length, in the string built for the copy count the
    realigner reports. *)
Theorem realign_score_at_most_perfect
    (seq pre_flank post_flank motif : list ascii) (g : globals) :
  scoring_scheme → motif ≠ [] → inputs_fit seq pre_flank post_flank motif →
  Z.of_nat (length seq) * MATCH_SCORE ≤ max_int32 →
  ∃ nCopy pos score g',
    expansion_aware_realign seq pre_flank post_flank motif g
    = (Returned (nCopy, pos, score), g')
    ∧ score ≤ Z.of_nat (length seq) * MATCH_SCORE
    ∧ (score = Z.of_nat (length seq) * MATCH_SCORE
       ↔ occurs seq (var_realign_string pre_flank post_flank motif nCopy)).
Proof.
  intros (H1 & H2 & H3 & H4 & H5) Hne Hfit Hperf.
  destruct (realign_winner_spec H1 H2 H3 H4 H5 seq pre_flank post_flank motif
              Hne Hfit Hperf g)
    as (nCopy & pos & score & Hrun & _ & Hle & Hiff).
  by eexists nCopy, pos, score, _.
Qed.

(** ** Scenario 1 *)

Lemma score_threshold_le (seq : list ascii) :
  Qle 0 MATCH_PERC_THRESHOLD → Qle MATCH_PERC_THRESHOLD 1 →
  0 ≤ Z.of_nat (length seq) * MATCH_SCORE ≤ max_int32 →
  0 ≤ score_threshold seq ≤ Z.of_nat (length seq) * MATCH_SCORE.
Proof.
  unfold Qle. cbn. intros H0 H1 Hx.
  unfold score_threshold, double_to_int32. cbn [Qmult Qnum Qden inject_Z].
  rewrite !Pos.mul_1_r.
  set (a := Qnum MATCH_PERC_THRESHOLD) in *.
  set (d := Z.pos (Qden MATCH_PERC_THRESHOLD)) in *.
  set (x := Z.of_nat (length seq) * MATCH_SCORE) in *.
  replace (a * Z.of_nat (length seq) * MATCH_SCORE) with (a * x) by (unfold x; lia).
  assert (0 ≤ a * x) by (apply Z.mul_nonneg_nonneg; lia).
  assert (a * x ≤ d * x) by (apply Z.mul_le_mono_nonneg_r; lia).
  rewrite Z.quot_div_nonneg by lia.
  assert (0 ≤ a * x / d) by (apply Z.div_pos; lia).
  assert (a * x / d ≤ x) by (apply Z.div_le_upper_bound; lia).
  rewrite int32_id; [lia|].
  unfold in_int32, min_int32, max_int32 in *. lia.
Qed.

(** C1, as the code has it.  For motif "CA", flanks "AAAA" and "TTTT",
    prefix length 4 and the read "AAAACACACATTTT", the realigner
    followed by the classifier yields copy count 3, offset 0 and the
    perfect score [14 * MATCH_SCORE]; the class is IRR, because with
    [MARGIN = 7] both ends of the read lie within the margin
    interval [-3, 17] and that test comes before the one for
    ENCLOSING. *)
Theorem scenario_1_realign_and_classify (g : globals) :
  scoring_scheme →
  Qle 0 MATCH_PERC_THRESHOLD → Qle MATCH_PERC_THRESHOLD 1 →
  14 * MATCH_SCORE ≤ max_int32 →
  realign_and_classify (dna "AAAACACACATTTT") (dna "AAAA") (dna "TTTT")
    (dna "CA") 4 g
  = Returned (3, 0, 14 * MATCH_SCORE, SR_IRR).
Proof.
  intros (H1 & H2 & H3 & H4 & H5) HT0 HT1 Hperf.
  assert (Hrun : expansion_aware_realign (dna "AAAACACACATTTT") (dna "AAAA")
                   (dna "TTTT") (dna "CA") g
                 = (Returned (3, 0, 14 * MATCH_SCORE), Globals 7)).
  { apply (exact_read_wins H1 H2 H3 H4 H5 (dna "AAAACACACATTTT") (dna "AAAA")
             (dna "TTTT") (dna "CA")); try done.
    all: unfold inputs_fit, trial_bound, max_int32 in *; cbn; lia. }
  unfold realign_and_classify. rewrite Hrun.
  pose proof (score_threshold_le (dna "AAAACACACATTTT") HT0 HT1) as Hthr.
  change (Z.of_nat (length (dna "AAAACACACATTTT"))) with 14 in Hthr.
  cbn [mbind outcome_bind]. unfold classify_realigned_read.
  destruct (Z.ltb_spec (14 * MATCH_SCORE) (score_threshold (dna "AAAACACACATTTT")));
    [lia|].
  reflexivity.
Qed.

(** ** Further properties of the aligner *)

Lemma sw_result_entry seq1 seq2 m start_pos score (a b : nat) row v :
  sw_result seq1 seq2 m start_pos score →
  m !! a = Some row → row !! b = Some v →
  v = cell m (Z.of_nat a) (Z.of_nat b)
  ∧ Z.of_nat a < Z.of_nat (length seq1) + 1
  ∧ Z.of_nat b < Z.of_nat (length seq2) + 1.
Proof.
  intros ((Hsh & _) & _) Ha Hb.
  split; [by rewrite (cell_lookup m a b row v)|].
  pose proof (shape_row _ _ _ _ _ Hsh Ha) as Hrow.
  apply lookup_lt_Some in Ha, Hb. destruct Hsh as [Hlen _]. lia.
Qed.

(** X1. The score that [create_score_matrix] reports is the greatest
    entry of the filled matrix, and the row it reports is that of the
    first entry, in row-major order, that holds it: a later entry of the
    same value does not replace it. *)
Theorem create_score_matrix_first_maximum (seq1 seq2 : list ascii) :
  Z.of_nat (length seq1) < max_int32 →
  Z.of_nat (length seq2) < max_int32 →
  ∃ m start_pos score,
    smith_waterman_matrix seq1 seq2 = Returned (m, start_pos, score)
    ∧ (∀ (a b : nat) row v, m !! a = Some row → row !! b = Some v → v ≤ score)
    ∧ (0 < score →
       ∃ (r c : nat) row,
         start_pos = Z.of_nat r ∧ m !! r = Some row ∧ row !! c = Some score
         ∧ ∀ (a b : nat) row' v,
             m !! a = Some row' → row' !! b = Some v →
             (a < r ∨ (a = r ∧ b < c))%nat → v < score).
Proof.
  intros H1 H2.
  destruct (smith_waterman_matrix_spec seq1 seq2) as (m & sp & sc & Hm & Hres);
    [lia..|].
  exists m, sp, sc. split; [done|]. split.
  - intros a b row v Ha Hb.
    destruct (sw_result_entry _ _ _ _ _ _ _ _ _ Hres Ha Hb) as (-> & _).
    apply Hres.
  - intros Hpos. pose proof Hres as (Hf & _ & _ & Hat).
    destruct Hat as [(_ & ->)|(_ & Hsp & col & Hcol & Hc & Hbefore)]; [lia|].
    destruct (cell_cases m sp col) as [H0|(row & Hrow & Hv)]; [lia|].
    exists (Z.to_nat sp), (Z.to_nat col), row.
    split; [lia|]. split; [done|]. split; [by rewrite <- Hc|].
    intros a b row' v Ha Hb Hab.
    destruct (sw_result_entry _ _ _ _ _ _ _ _ _ Hres Ha Hb) as (-> & Hra & Hrb).
    destruct (decide (1 ≤ Z.of_nat a ∧ 1 ≤ Z.of_nat b)) as [Hint|Hborder].
    + apply Hbefore. unfold visited. lia.
    + destruct Hf as (_ & Hz & _). rewrite Hz; lia.
Qed.

(** X2. [smith_waterman] returns a score that is not negative; the score
    is 0 exactly when the position is the sentinel [-1 - len(seq2)], and
    with a positive score the position lies between [1 - len(seq2)] and
    [len(seq1) - len(seq2)]. *)
Theorem smith_waterman_position_range (seq1 seq2 : list ascii) :
  Z.of_nat (length seq1) < max_int32 →
  Z.of_nat (length seq2) < max_int32 →
  ∃ pos score,
    smith_waterman seq1 seq2 = Returned (pos, score)
    ∧ 0 ≤ score
    ∧ (score = 0 ↔ pos = -1 - Z.of_nat (length seq2))
    ∧ (0 < score →
       1 - Z.of_nat (length seq2) ≤ pos
       ≤ Z.of_nat (length seq1) - Z.of_nat (length seq2)).
Proof.
  intros H1 H2.
  destruct (smith_waterman_spec seq1 seq2) as (m & sp & sc & Hsw & Hres); [lia..|].
  exists (sp - Z.of_nat (length seq2)), sc. split; [done|].
  destruct Hres as (_ & Hge & _ & [(-> & ->)|(Hpos & Hsp & _)]).
  - split; [done|]. split; [done|lia].
  - split; [done|]. split; [lia|lia].
Qed.

(** X3. When one of the two sequences is empty no cell is scored:
    [smith_waterman] returns the score 0 and the sentinel position. *)
Theorem smith_waterman_empty_sequence (seq1 seq2 : list ascii) :
  Z.of_nat (length seq1) < max_int32 →
  Z.of_nat (length seq2) < max_int32 →
  seq1 = [] ∨ seq2 = [] →
  smith_waterman seq1 seq2 = Returned (-1 - Z.of_nat (length seq2), 0).
Proof.
  intros H1 H2 Hempty.
  destruct (smith_waterman_spec seq1 seq2) as (m & sp & sc & Hsw & Hres); [lia..|].
  rewrite Hsw.
  destruct Hres as (_ & _ & _ & [(-> & ->)|(_ & Hsp & col & Hcol & _)]); [done|].
  destruct Hempty as [-> | ->]; cbn in *; lia.
Qed.

Lemma similarity_sym seq1 seq2 a b :
  similarity seq1 seq2 a b = similarity seq2 seq1 b a.
Proof.
  unfold similarity.
  destruct (seq1 !! Z.to_nat (a - 1)), (seq2 !! Z.to_nat (b - 1)); try done.
  by rewrite Ascii.eqb_sym.
Qed.

Lemma cell_value_sym sim d u l : cell_value sim d u l = cell_value sim d l u.
Proof. unfold cell_value. lia. Qed.

(** The matrix filled for [(seq2, seq1)] is the transpose of the one
    filled for [(seq1, seq2)]. *)
Lemma filled_transpose seq1 seq2 m m' :
  filled seq1 seq2 m → filled seq2 seq1 m' →
  ∀ a b, cell m a b = cell m' b a.
Proof.
  intros (_ & Hz & Hrec) (_ & Hz' & Hrec').
  assert (Hn : ∀ n : nat, ∀ a b, a + b ≤ Z.of_nat n → cell m a b = cell m' b a).
  { induction n as [|n IH]; intros a b Hab.
    - rewrite Hz, Hz' by lia. done.
    - destruct (decide (1 ≤ a < Z.of_nat (length seq1) + 1
                        ∧ 1 ≤ b < Z.of_nat (length seq2) + 1)) as [[Ha Hb]|Hout].
      + rewrite (Hrec a b Ha Hb), (Hrec' b a Hb Ha).
        rewrite (IH (a - 1) (b - 1)), (IH (a - 1) b), (IH a (b - 1)) by lia.
        rewrite similarity_sym. apply cell_value_sym.
      + rewrite Hz, Hz' by lia. done. }
  intros a b. apply (Hn (Z.to_nat (a + b))). lia.
Qed.

(** X4. The score of [smith_waterman] does not depend on the order of its
    two sequences; only the position does. *)
Theorem smith_waterman_score_symmetric (seq1 seq2 : list ascii) :
  Z.of_nat (length seq1) < max_int32 →
  Z.of_nat (length seq2) < max_int32 →
  ∃ pos pos' score,
    smith_waterman seq1 seq2 = Returned (pos, score)
    ∧ smith_waterman seq2 seq1 = Returned (pos', score).
Proof.
  intros H1 H2.
  destruct (smith_waterman_spec seq1 seq2) as (m & sp & sc & Hsw & Hres); [lia..|].
  destruct (smith_waterman_spec seq2 seq1) as (m' & sp' & sc' & Hsw' & Hres');
    [lia..|].
  rewrite Hsw, Hsw'.
  destruct Hres as (Hf & Hge & Hall & Hat).
  destruct Hres' as (Hf' & Hge' & Hall' & Hat').
  pose proof (filled_transpose _ _ _ _ Hf Hf') as Ht.
  assert (sc ≤ sc').
  { destruct Hat as [(_ & ->)|(_ & _ & col & _ & <- & _)]; [done|].
    rewrite Ht. apply Hall'. }
  assert (sc' ≤ sc).
  { destruct Hat' as [(_ & ->)|(_ & _ & col & _ & <- & _)]; [done|].
    rewrite <- Ht. apply Hall. }
  assert (sc' = sc) as -> by lia. by eexists _, _, _.
Qed.

(** ** Exact runs of matching bases *)

Lemma match_ending_occurs_at hyp read a :
  (a ≤ length hyp)%nat →
  match_ending hyp read a (length read)
  ↔ (length read ≤ a)%nat ∧ occurs_at hyp read (a - length read).
Proof.
  intros Ha. unfold match_ending, occurs_at. rewrite (firstn_all read).
  split.
  - intros [Hle Heq]. split; [done|]. split; [lia|done].
  - intros [Hle [_ Heq]]. done.
Qed.

Section Runs.

Hypothesis match_pos : 0 < MATCH_SCORE.
Hypothesis mismatch_lt : MISMATCH_SCORE < MATCH_SCORE.
Hypothesis gap_neg : GAP_SCORE < 0.
Hypothesis mismatch_32 : min_int32 ≤ MISMATCH_SCORE.
Hypothesis gap_32 : min_int32 ≤ GAP_SCORE.

Variables seq1 seq2 : list ascii.

Hypothesis perfect_32 : Z.of_nat (length seq2) * MATCH_SCORE ≤ max_int32.

(** The value of an interior cell, without the wrap-around. *)
Lemma cell_interior m (a b : nat) :
  filled seq1 seq2 m →
  (a < length seq1)%nat → (b < length seq2)%nat →
  cell m (Z.of_nat (S a)) (Z.of_nat (S b))
  = Z.max 0
      (Z.max (cell m (Z.of_nat a) (Z.of_nat b)
              + similarity seq1 seq2 (Z.of_nat (S a)) (Z.of_nat (S b)))
         (Z.max (cell m (Z.of_nat a) (Z.of_nat (S b)) + GAP_SCORE)
                (cell m (Z.of_nat (S a)) (Z.of_nat b) + GAP_SCORE))).
Proof.
  intros Hf Ha Hb.
  pose proof (cell_bounds match_pos mismatch_lt gap_neg mismatch_32 gap_32
                seq1 seq2 perfect_32 m Hf) as Hbd.
  destruct Hf as (_ & _ & Hrec). rewrite Hrec by lia.
  pose proof (similarity_le mismatch_lt seq1 seq2 (Z.of_nat (S a)) (Z.of_nat (S b))).
  replace (Z.of_nat (S a) - 1) with (Z.of_nat a) by lia.
  replace (Z.of_nat (S b) - 1) with (Z.of_nat b) by lia.
  destruct (Hbd (Z.of_nat a) (Z.of_nat b)) as (? & ? & ?); [lia..|].
  destruct (Hbd (Z.of_nat a) (Z.of_nat (S b))) as (? & ? & ?); [lia..|].
  destruct (Hbd (Z.of_nat (S a)) (Z.of_nat b)) as (? & ? & ?); [lia..|].
  apply (cell_value_exact match_pos gap_neg mismatch_32 gap_32 seq2 perfect_32
           _ _ _ _ (Z.of_nat (S b))); lia.
Qed.

(** A run of [L] equal bases that ends at cell [(a+L, b+L)] gives that
    cell at least [L] times the match score. *)
Lemma cell_common_run m :
  filled seq1 seq2 m →
  ∀ (L a b : nat),
    (a + L ≤ length seq1)%nat → (b + L ≤ length seq2)%nat →
    (∀ t, (t < L)%nat → seq1 !! (a + t)%nat = seq2 !! (b + t)%nat) →
    Z.of_nat L * MATCH_SCORE ≤ cell m (Z.of_nat (a + L)) (Z.of_nat (b + L)).
Proof.
  intros Hf.
  pose proof (cell_bounds match_pos mismatch_lt gap_neg mismatch_32 gap_32
                seq1 seq2 perfect_32 m Hf) as Hbd.
  induction L as [|L IH]; intros a b Ha Hb Hrun.
  - destruct (Hbd (Z.of_nat (a + 0)) (Z.of_nat (b + 0))); lia.
  - replace (a + S L)%nat with (S (a + L)) by lia.
    replace (b + S L)%nat with (S (b + L)) by lia.
    rewrite cell_interior by (done || lia).
    destruct (lookup_lt_is_Some_2 seq1 (a + L)) as [c1 Hc1]; [lia|].
    destruct (lookup_lt_is_Some_2 seq2 (b + L)) as [c2 Hc2]; [lia|].
    assert (c1 = c2) as Hc.
    { specialize (Hrun L). rewrite Hc1, Hc2 in Hrun. by injection Hrun; [|lia]. }
    apply (similarity_match mismatch_lt seq1 seq2 _ _ _ _ Hc1 Hc2) in Hc.
    rewrite Hc.
    assert (Z.of_nat L * MATCH_SCORE ≤ cell m (Z.of_nat (a + L)) (Z.of_nat (b + L)))
      by (apply IH; [lia..|]; intros t Ht; apply Hrun; lia).
    rewrite Nat2Z.inj_succ, Z.mul_succ_l. lia.
Qed.

(** A positive cell has a pair of equal bases behind it, when mismatches
    do not score. *)
Lemma cell_pos_shared_base m :
  MISMATCH_SCORE ≤ 0 →
  filled seq1 seq2 m →
  ∀ (n a b : nat), (a + b ≤ n)%nat →
    0 < cell m (Z.of_nat a) (Z.of_nat b) →
    ∃ c, c ∈ seq1 ∧ c ∈ seq2.
Proof.
  intros Hmm Hf.
  induction n as [|n IH]; intros a b Hab Hpos.
  - destruct Hf as (_ & Hz & _). rewrite Hz in Hpos by lia. lia.
  - destruct a as [|a]; [destruct Hf as (_ & Hz & _); rewrite Hz in Hpos; lia|].
    destruct b as [|b]; [destruct Hf as (_ & Hz & _); rewrite Hz in Hpos; lia|].
    destruct (decide (a < length seq1 ∧ b < length seq2)%nat) as [[Ha Hb]|Hout];
      [|destruct Hf as (_ & Hz & _); rewrite Hz in Hpos; lia].
    rewrite cell_interior in Hpos by done.
    destruct (lookup_lt_is_Some_2 seq1 a) as [c1 Hc1]; [done|].
    destruct (lookup_lt_is_Some_2 seq2 b) as [c2 Hc2]; [done|].
    destruct (decide (similarity seq1 seq2 (Z.of_nat (S a)) (Z.of_nat (S b))
                      = MATCH_SCORE)) as [Hsim|Hsim].
    + apply (similarity_match mismatch_lt seq1 seq2 _ _ _ _ Hc1 Hc2) in Hsim.
      subst c2. exists c1. split; by eapply list_elem_of_lookup_2.
    + assert (similarity seq1 seq2 (Z.of_nat (S a)) (Z.of_nat (S b)) ≤ 0).
      { revert Hsim. unfold similarity.
        replace (Z.to_nat (Z.of_nat (S a) - 1)) with a by lia.
        replace (Z.to_nat (Z.of_nat (S b) - 1)) with b by lia.
        rewrite Hc1, Hc2. by destruct (Ascii.eqb c1 c2). }
      destruct (decide (0 < cell m (Z.of_nat a) (Z.of_nat b))) as [Hd|Hd];
        [apply (IH a b); [lia|done]|].
      destruct (decide (0 < cell m (Z.of_nat a) (Z.of_nat (S b)))) as [Hu|Hu];
        [apply (IH a (S b)); [lia|done]|].
      destruct (decide (0 < cell m (Z.of_nat (S a)) (Z.of_nat b))) as [Hl|Hl];
        [apply (IH (S a) b); [lia|done]|].
      lia.
Qed.

End Runs.

(** X5. Under a scoring scheme that rewards matches only, a string that
    occurs in both sequences gives [smith_waterman] a score of at least
    its length times the match score. *)
Theorem smith_waterman_common_substring (seq1 seq2 x1 w y1 x2 y2 : list ascii) :
  scoring_scheme →
  Z.of_nat (length seq1) < max_int32 →
  Z.of_nat (length seq2) < max_int32 →
  Z.of_nat (length seq2) * MATCH_SCORE ≤ max_int32 →
  seq1 = x1 ++ w ++ y1 → seq2 = x2 ++ w ++ y2 →
  ∃ pos score,
    smith_waterman seq1 seq2 = Returned (pos, score)
    ∧ Z.of_nat (length w) * MATCH_SCORE ≤ score.
Proof.
  intros (S1 & S2 & S3 & S4 & S5) H1 H2 Hperf Hs1 Hs2.
  destruct (smith_waterman_spec seq1 seq2) as (m & sp & sc & Hsw & Hres); [lia..|].
  eexists _, sc. split; [exact Hsw|].
  destruct Hres as (Hf & _ & Hall & _).
  etransitivity; [|apply (Hall (Z.of_nat (length x1 + length w))
                                (Z.of_nat (length x2 + length w)))].
  apply (cell_common_run S1 S2 S3 S4 S5 seq1 seq2 Hperf m Hf).
  - rewrite Hs1, !length_app. lia.
  - rewrite Hs2, !length_app. lia.
  - intros t Ht. rewrite Hs1, Hs2.
    rewrite (lookup_app_r x1), (lookup_app_r x2) by lia.
    replace (length x1 + t - length x1)%nat with t by lia.
    replace (length x2 + t - length x2)%nat with t by lia.
    by rewrite (lookup_app_l w y1), (lookup_app_l w y2) by lia.
Qed.

(** X6. When, moreover, a mismatch does not score above 0,
    [smith_waterman] finds an alignment (a positive score) exactly when
    the two sequences have a base in common. *)
Theorem smith_waterman_positive_iff_shared_base (seq1 seq2 : list ascii) :
  scoring_scheme → MISMATCH_SCORE ≤ 0 →
  Z.of_nat (length seq1) < max_int32 →
  Z.of_nat (length seq2) < max_int32 →
  Z.of_nat (length seq2) * MATCH_SCORE ≤ max_int32 →
  ∃ pos score,
    smith_waterman seq1 seq2 = Returned (pos, score)
    ∧ (0 < score ↔ ∃ c, c ∈ seq1 ∧ c ∈ seq2).
Proof.
  intros (S1 & S2 & S3 & S4 & S5) Hmm H1 H2 Hperf.
  destruct (smith_waterman_spec seq1 seq2) as (m & sp & sc & Hsw & Hres); [lia..|].
  eexists _, sc. split; [exact Hsw|].
  destruct Hres as (Hf & _ & Hall & Hat). split.
  - intros Hpos.
    destruct Hat as [(_ & ->)|(_ & Hsp & col & Hcol & Hc & _)]; [lia|].
    apply (cell_pos_shared_base S1 S2 S3 S4 S5 seq1 seq2 Hperf m Hmm Hf
             (Z.to_nat sp + Z.to_nat col) (Z.to_nat sp) (Z.to_nat col)); [lia|].
    replace (Z.of_nat (Z.to_nat sp)) with sp by lia.
    replace (Z.of_nat (Z.to_nat col)) with col by lia. lia.
  - intros (c & [i Hi]%list_elem_of_lookup & [j Hj]%list_elem_of_lookup).
    pose proof (lookup_lt_Some _ _ _ Hi). pose proof (lookup_lt_Some _ _ _ Hj).
    pose proof (cell_common_run S1 S2 S3 S4 S5 seq1 seq2 Hperf m Hf 1 i j) as Hrun.
    specialize (Hall (Z.of_nat (i + 1)) (Z.of_nat (j + 1))).
    assert (Z.of_nat 1 * MATCH_SCORE
            ≤ cell m (Z.of_nat (i + 1)) (Z.of_nat (j + 1))) as Hge.
    { apply Hrun; [lia..|]. intros t Ht. replace t with 0%nat by lia.
      rewrite !Nat.add_0_r. by rewrite Hi, Hj. }
    lia.
Qed.

(** X7. When the second sequence occurs, base for base, in the first,
    [smith_waterman] returns the perfect score and the offset of the
    first occurrence. *)
Theorem smith_waterman_first_occurrence (seq1 seq2 : list ascii) (off : nat) :
  scoring_scheme →
  Z.of_nat (length seq1) < max_int32 →
  Z.of_nat (length seq2) < max_int32 →
  Z.of_nat (length seq2) * MATCH_SCORE ≤ max_int32 →
  seq2 ≠ [] →
  occurs_at seq1 seq2 off →
  (∀ off', (off' < off)%nat → ¬ occurs_at seq1 seq2 off') →
  smith_waterman seq1 seq2
  = Returned (Z.of_nat off, Z.of_nat (length seq2) * MATCH_SCORE).
Proof.
  intros (S1 & S2 & S3 & S4 & S5) H1 H2 Hperf Hne Hocc Hfirst.
  assert (0 < length seq2)%nat as Hn by (destruct seq2; [done|cbn; lia]).
  destruct (smith_waterman_spec seq1 seq2) as (m & sp & sc & Hsw & Hres); [lia..|].
  rewrite Hsw.
  assert (sc = Z.of_nat (length seq2) * MATCH_SCORE) as Hsc.
  { apply (sw_score_perfect S1 S2 S3 S4 S5 seq1 seq2 Hperf m sp sc Hres).
    by exists off. }
  assert (0 < sc) by (rewrite Hsc; apply Z.mul_pos_pos; lia).
  destruct Hres as (Hf & _ & Hall & Hat).
  pose proof (cell_bounds S1 S2 S3 S4 S5 seq1 seq2 Hperf m Hf) as Hbd.
  pose proof (cell_perfect S1 S2 S3 S4 S5 seq1 seq2 Hperf m Hf) as Hcp.
  destruct Hat as [(_ & ->)|(_ & Hsp & col & Hcol & Hc & Hbefore)]; [lia|].
  assert (col = Z.of_nat (length seq2)) as ->.
  { destruct (decide (col = Z.of_nat (length seq2))) as [|Hcne]; [done|].
    destruct (Hbd sp col) as (_ & _ & Hb); [lia..|].
    assert (col * MATCH_SCORE ≤ (Z.of_nat (length seq2) - 1) * MATCH_SCORE)
      by (apply Z.mul_le_mono_nonneg_r; lia).
    lia. }
  pose proof Hocc as [Hlen _].
  assert (sp ≤ Z.of_nat (off + length seq2)) as Hle.
  { destruct (decide (sp ≤ Z.of_nat (off + length seq2))) as [|Hgt]; [done|].
    assert (cell m (Z.of_nat (off + length seq2)) (Z.of_nat (length seq2))
            = Z.of_nat (length seq2) * MATCH_SCORE) as Hcell.
    { apply Hcp; [lia..|]. apply match_ending_occurs_at; [lia|].
      split; [lia|]. by replace (off + length seq2 - length seq2)%nat with off by lia. }
    specialize (Hbefore (Z.of_nat (off + length seq2)) (Z.of_nat (length seq2))).
    unfold visited in Hbefore. lia. }
  assert (Z.of_nat (off + length seq2) ≤ sp) as Hge.
  { assert (match_ending seq1 seq2 (Z.to_nat sp) (length seq2)) as Hme.
    { apply Hcp; [lia..|].
      replace (Z.of_nat (Z.to_nat sp)) with sp by lia. lia. }
    apply match_ending_occurs_at in Hme as [Hn' Hocc']; [|lia].
    destruct (decide (Z.to_nat sp - length seq2 < off)%nat) as [Hlt|]; [|lia].
    by apply Hfirst in Hocc'. }
  rewrite Hsc. do 2 f_equal. lia.
Qed.

(** ** Further properties of the realigner *)

Lemma elem_of_repeat_motif motif k c : c ∈ repeat_motif motif k → c ∈ motif.
Proof.
  induction k as [|k IH]; cbn; [by intros ?%elem_of_nil|].
  intros [?|?]%elem_of_app; [done|by apply IH].
Qed.

Lemma elem_of_var_realign_string pre_flank post_flank motif k c :
  c ∈ var_realign_string pre_flank post_flank motif k →
  c ∈ pre_flank ∨ c ∈ motif ∨ c ∈ post_flank.
Proof.
  unfold var_realign_string.
  intros [?|[?%elem_of_repeat_motif|?]%elem_of_app]%elem_of_app; auto.
Qed.

(** Two sequences without a common base score 0. *)
Lemma sw_score_zero_foreign seq1 seq2 m start_pos score :
  scoring_scheme → MISMATCH_SCORE ≤ 0 →
  Z.of_nat (length seq2) * MATCH_SCORE ≤ max_int32 →
  sw_result seq1 seq2 m start_pos score →
  (∀ c, c ∈ seq1 → c ∈ seq2 → False) →
  score = 0.
Proof.
  intros (S1 & S2 & S3 & S4 & S5) Hmm Hperf (Hf & Hge & _ & Hat) Hforeign.
  destruct Hat as [(_ & ->)|(Hpos & Hsp & col & Hcol & Hc & _)]; [done|].
  destruct (cell_pos_shared_base S1 S2 S3 S4 S5 seq1 seq2 Hperf m Hmm Hf
              (Z.to_nat start_pos + Z.to_nat col) (Z.to_nat start_pos)
              (Z.to_nat col)) as (c & Hc1 & Hc2); [lia| |].
  - replace (Z.of_nat (Z.to_nat start_pos)) with start_pos by lia.
    replace (Z.of_nat (Z.to_nat col)) with col by lia. lia.
  - by destruct (Hforeign c).
Qed.

(** X8. A read that is exactly [pre_flank], [K] copies of the motif and
    [post_flank] is realigned to the copy count [K], at offset 0, with
    the perfect score; no smaller copy count stops the loop before. *)
Theorem realign_exact_read (pre_flank post_flank motif : list ascii)
    (K : Z) (g : globals) :
  scoring_scheme → motif ≠ [] → 0 ≤ K →
  var_realign_string pre_flank post_flank motif K ≠ [] →
  inputs_fit (var_realign_string pre_flank post_flank motif K)
    pre_flank post_flank motif →
  Z.of_nat (length (var_realign_string pre_flank post_flank motif K))
  * MATCH_SCORE ≤ max_int32 →
  expansion_aware_realign (var_realign_string pre_flank post_flank motif K)
    pre_flank post_flank motif g
  = (Returned
       (K, 0,
        Z.of_nat (length (var_realign_string pre_flank post_flank motif K))
        * MATCH_SCORE),
     Globals (margin_of motif)).
Proof.
  intros (S1 & S2 & S3 & S4 & S5) Hne HK Hseq Hfit Hperf.
  apply (exact_read_wins S1 S2 S3 S4 S5 _ pre_flank post_flank motif Hne Hfit Hperf);
    [|done|].
  - split; [done|]. unfold trial_bound.
    pose proof (period_pos motif Hne) as Hp.
    assert (K ≤ Z.of_nat (length (var_realign_string pre_flank post_flank motif K))
                ÷ Z.of_nat (length motif)); [|lia].
    apply Z.quot_le_lower_bound; [done|].
    rewrite length_var_realign_string by done. lia.
  - destruct (var_realign_string pre_flank post_flank motif K); [done|cbn; lia].
Qed.

(** X9. For an empty read the realigner makes a single call of
    [smith_waterman], for copy count 0, which reports the sentinel; the
    score 0 of that trial is the perfect score of the empty read and
    stops the loop, and the realigner returns (0, 0, 0). *)
Theorem realign_empty_read (pre_flank post_flank motif : list ascii)
    (g : globals) :
  motif ≠ [] → inputs_fit [] pre_flank post_flank motif →
  realign_trials [] pre_flank post_flank motif g
  = (Returned (0, 0, 0, [Trial 0 (-1) 0]), Globals (margin_of motif)).
Proof.
  intros Hne Hfit.
  destruct (realign_trials_spec [] pre_flank post_flank motif Hne Hfit g)
    as (log & Hrun & Hlen & Htr & Hstop & _).
  rewrite Hrun.
  destruct log as [|t0 log]; [cbn in Hlen; lia|].
  pose proof (Htr 0%nat t0 eq_refl) as Ht0.
  destruct (trial_returns [] pre_flank post_flank motif Hne Hfit 0)
    as (m & sp & sc & Ht & Hres); [unfold trial_bound in *; lia|].
  change (Z.of_nat 0) with 0 in Ht0. rewrite Ht in Ht0. injection Ht0 as <-.
  destruct Hres as (_ & _ & _ & [(-> & ->)|(_ & _ & col & Hcol & _)]);
    [|cbn in Hcol; lia].
  assert (length log = 0%nat) as ->%nil_length_inv.
  { specialize (Hstop 0%nat _ eq_refl). cbn in Hstop.
    assert (S 0 = S (length log)) by (apply Hstop; reflexivity). lia. }
  reflexivity.
Qed.

(** X10. What the realigner returns for a non-empty motif: a copy count
    between 0 and [len(read) / period + 1], and a score that is not
    negative; with the score 0 it returns (0, 0, 0); with a positive score
    the last base of the read, at [pos + len(read) - 1], falls on a base
    of the string built for the returned copy count. *)
Theorem realign_result_range (seq pre_flank post_flank motif : list ascii)
    (g : globals) :
  motif ≠ [] → inputs_fit seq pre_flank post_flank motif →
  ∃ nCopy pos score,
    expansion_aware_realign seq pre_flank post_flank motif g
    = (Returned (nCopy, pos, score), Globals (margin_of motif))
    ∧ 0 ≤ nCopy ≤ Z.of_nat (length seq) ÷ Z.of_nat (length motif) + 1
    ∧ 0 ≤ score
    ∧ (score = 0 → nCopy = 0 ∧ pos = 0)
    ∧ (0 < score →
       0 ≤ pos + Z.of_nat (length seq) - 1
       < Z.of_nat (length (var_realign_string pre_flank post_flank motif nCopy))).
Proof.
  intros Hne Hfit.
  destruct (realign_trials_spec seq pre_flank post_flank motif Hne Hfit g)
    as (log & Hrun & Hlen & Htr & _).
  unfold expansion_aware_realign. rewrite Hrun. cbn [mbind outcome_bind].
  unfold trial_bound in Hlen.
  destruct (select_spec log (0, 0, 0))
    as [(-> & _)|(idx & t & Hidx & -> & Hlt & _)].
  - exists 0, 0, 0. split; [done|].
    pose proof (period_pos motif Hne).
    assert (0 ≤ Z.of_nat (length seq) ÷ Z.of_nat (length motif))
      by (apply Z.quot_pos; lia).
    repeat split; lia.
  - pose proof (lookup_lt_Some _ _ _ Hidx).
    pose proof (Htr _ _ Hidx) as Htrial.
    destruct (trial_returns seq pre_flank post_flank motif Hne Hfit (Z.of_nat idx))
      as (m & sp & sc & Ht & Hres); [unfold trial_bound; lia|].
    rewrite Ht in Htrial. injection Htrial as <-. cbn in *.
    eexists _, _, _. split; [done|]. split; [lia|].
    destruct Hres as (_ & Hge & _ & [(_ & ->)|(_ & Hsp & _)]); [lia|].
    split; [done|]. split; lia.
Qed.

(** X11. A read that has no base in common with the flanks and the motif
    is realigned to (0, 0, 0) and classified UNKNOWN, when matches only
    are rewarded and a mismatch does not score above 0. *)
Theorem realign_and_classify_foreign_read
    (seq pre_flank post_flank motif : list ascii) (prefix_length : Z)
    (g : globals) :
  scoring_scheme → MISMATCH_SCORE ≤ 0 →
  motif ≠ [] → inputs_fit seq pre_flank post_flank motif →
  Z.of_nat (length seq) * MATCH_SCORE ≤ max_int32 →
  (∀ c, c ∈ seq → (c ∉ pre_flank) ∧ (c ∉ motif) ∧ (c ∉ post_flank)) →
  realign_and_classify seq pre_flank post_flank motif prefix_length g
  = Returned (0, 0, 0, SR_UNKNOWN).
Proof.
  intros Hscheme Hmm Hne Hfit Hperf Hforeign.
  destruct (realign_trials_spec seq pre_flank post_flank motif Hne Hfit g)
    as (log & Hrun & Hlen & Htr & _).
  assert (Hzero : ∀ t, t ∈ log → t_score t = 0).
  { intros t [idx Hidx]%list_elem_of_lookup.
    pose proof (lookup_lt_Some _ _ _ Hidx).
    pose proof (Htr _ _ Hidx) as Htrial.
    destruct (trial_returns seq pre_flank post_flank motif Hne Hfit (Z.of_nat idx))
      as (m & sp & sc & Ht & Hres); [lia|].
    rewrite Ht in Htrial. injection Htrial as <-. cbn.
    apply (sw_score_zero_foreign _ _ _ _ _ Hscheme Hmm Hperf Hres).
    intros c Hc1%elem_of_var_realign_string Hc2.
    destruct (Hforeign c Hc2) as (? & ? & ?). tauto. }
  assert (select (0, 0, 0) log = (0, 0, 0)) as Hsel.
  { destruct (select_spec log (0, 0, 0))
      as [(-> & _)|(idx & t & Hidx & _ & Hlt & _)]; [done|].
    apply list_elem_of_lookup_2, Hzero in Hidx. cbn in Hlt. lia. }
  unfold realign_and_classify, expansion_aware_realign.
  rewrite Hrun, Hsel. cbn [mbind outcome_bind].
  unfold classify_realigned_read. cbv zeta.
  by rewrite orb_true_r.
Qed.

(** ** Further properties of the classifier *)

Lemma classifier_unwrapped seq motif start_pos nCopy prefix_length g :
  classifier_in_range seq motif start_pos nCopy prefix_length g →
  end_pos_of seq start_pos = start_pos + Z.of_nat (length seq) - 1
  ∧ end_str_of motif nCopy prefix_length
    = prefix_length + nCopy * Z.of_nat (length motif)
  ∧ sub32 prefix_length (MARGIN g) = prefix_length - MARGIN g
  ∧ add32 (prefix_length + nCopy * Z.of_nat (length motif)) (MARGIN g)
    = prefix_length + nCopy * Z.of_nat (length motif) + MARGIN g.
Proof.
  intros (H1 & H2 & H3 & H4 & H5 & H6 & H7 & H8).
  unfold end_pos_of, end_str_of.
  rewrite !size32_id by done.
  rewrite (mul32_id _ _ H3), (add32_id _ _ H4), (add32_id _ _ H5),
    (sub32_id _ _ H6), (sub32_id _ _ H7), (add32_id _ _ H8).
  done.
Qed.

Ltac classifier_cases :=
  unfold classify_realigned_read, in_str; cbv zeta;
  match goal with
  | H : classifier_in_range _ _ _ _ _ _ |- _ =>
      destruct (classifier_unwrapped _ _ _ _ _ _ H) as (-> & -> & -> & ->)
  end;
  repeat match goal with
         | |- context [?a <? ?b] => destruct (Z.ltb_spec a b)
         | |- context [?a =? ?b] => destruct (Z.eqb_spec a b)
         | |- context [?a >=? ?b] => destruct (Z.geb_spec a b)
         | |- context [?a <=? ?b] => destruct (Z.leb_spec a b)
         | |- context [?a >? ?b] => destruct (Z.gtb_spec a b)
         end;
  cbn.

(** X12. With a margin and a copy count that are not negative, and no
    overflow, the classifier returns ENCLOSING exactly when the score
    reaches the threshold, the copy count is not 0, and the read leaves
    the margin interval on both sides: it starts before
    [prefix_length - MARGIN] and ends after
    [prefix_length + nCopy * period + MARGIN]. *)
Theorem classify_enclosing_iff (seq motif : list ascii)
    (start_pos nCopy score prefix_length : Z) (g : globals) :
  classifier_in_range seq motif start_pos nCopy prefix_length g →
  0 ≤ MARGIN g → 0 ≤ nCopy →
  classify_realigned_read seq motif start_pos nCopy score prefix_length g
  = Returned SR_ENCLOSING
  ↔ score_threshold seq ≤ score ∧ nCopy ≠ 0
    ∧ start_pos < prefix_length - MARGIN g
    ∧ prefix_length + nCopy * Z.of_nat (length motif) + MARGIN g
      < start_pos + Z.of_nat (length seq) - 1.
Proof.
  intros Hrange Hmargin HnCopy.
  assert (0 ≤ nCopy * Z.of_nat (length motif)) by (apply Z.mul_nonneg_nonneg; lia).
  classifier_cases; (split; [intros; try done; lia|intros; try done; lia]).
Qed.

(** X13. Under the same conditions and for a non-empty read, the
    classifier returns false exactly when the score reaches the
    threshold, the copy count is not 0, and the read lies entirely on
    one side of the margin interval. *)
Theorem classify_false_iff (seq motif : list ascii)
    (start_pos nCopy score prefix_length : Z) (g : globals) :
  classifier_in_range seq motif start_pos nCopy prefix_length g →
  0 ≤ MARGIN g → 0 ≤ nCopy → seq ≠ [] →
  classify_realigned_read seq motif start_pos nCopy score prefix_length g
  = ReturnedFalse
  ↔ score_threshold seq ≤ score ∧ nCopy ≠ 0
    ∧ (start_pos + Z.of_nat (length seq) - 1 < prefix_length - MARGIN g
       ∨ prefix_length + nCopy * Z.of_nat (length motif) + MARGIN g < start_pos).
Proof.
  intros Hrange Hmargin HnCopy Hne.
  assert (0 < Z.of_nat (length seq)) by (destruct seq; [done|cbn; lia]).
  assert (0 ≤ nCopy * Z.of_nat (length motif)) by (apply Z.mul_nonneg_nonneg; lia).
  classifier_cases; (split; [intros; try done; lia|intros; try done; lia]).
Qed.

(** ** The failure channel *)

Lemma bind_not_false {A B} (o : outcome A) (f : A → outcome B) :
  o ≠ ReturnedFalse → (∀ a, f a ≠ ReturnedFalse) → o ≫= f ≠ ReturnedFalse.
Proof. intros Ho Hf. destruct o; cbn; done. Qed.

Lemma at_not_false {A} (l : list A) z : at_ l z ≠ ReturnedFalse.
Proof. unfold at_. by repeat case_match. Qed.

Lemma at2_not_false m i j : at2 m i j ≠ ReturnedFalse.
Proof. apply bind_not_false; [apply at_not_false|]. intros row. apply at_not_false. Qed.

Lemma set2_not_false m i j v : set2 m i j v ≠ ReturnedFalse.
Proof.
  apply bind_not_false; [apply at_not_false|]. intros row.
  apply bind_not_false; [apply at_not_false|]. done.
Qed.

Lemma calc_score_not_false i j seq1 seq2 m :
  calc_score i j seq1 seq2 m ≠ ReturnedFalse.
Proof.
  unfold calc_score.
  do 5 (apply bind_not_false;
        [first [apply at_not_false|apply at2_not_false]|intros ?]).
  apply set2_not_false.
Qed.

Lemma for_steps_not_false {St} (body : Z → St → outcome St) n :
  (∀ c s, body c s ≠ ReturnedFalse) →
  ∀ c s, for_steps body n c s ≠ ReturnedFalse.
Proof.
  intros Hbody. induction n as [|n IH]; intros c s; cbn; [done|].
  apply bind_not_false; [apply Hbody|]. intros s'. apply IH.
Qed.

Lemma create_score_matrix_not_false rows cols seq1 seq2 m :
  create_score_matrix rows cols seq1 seq2 m ≠ ReturnedFalse.
Proof.
  unfold create_score_matrix, fill_loops, for_lt.
  apply bind_not_false.
  - apply for_steps_not_false. intros i s. apply for_steps_not_false.
    intros j s'. unfold fill_cell.
    apply bind_not_false; [apply calc_score_not_false|]. intros m'.
    apply bind_not_false; [apply at2_not_false|]. intros v.
    by destruct (v >? fs_max_score s').
  - intros s. by destruct ((fs_max_pos_row s =? -1) || (fs_max_pos_col s =? -1)).
Qed.

Lemma smith_waterman_not_false seq1 seq2 :
  smith_waterman seq1 seq2 ≠ ReturnedFalse.
Proof.
  unfold smith_waterman, smith_waterman_matrix.
  apply bind_not_false; [|by intros [[m sp] sc]].
  apply bind_not_false.
  - unfold alloc_matrix. by case_match.
  - intros m. apply create_score_matrix_not_false.
Qed.

Lemma realign_loop_not_false seq pre_flank post_flank motif n :
  ∀ k best log,
    realign_loop seq pre_flank post_flank motif n k best log ≠ ReturnedFalse.
Proof.
  induction n as [|n IH]; intros k [[mc mp] ms] log; cbn [realign_loop]; [done|].
  apply bind_not_false; [apply smith_waterman_not_false|].
  intros [pos sc]. case_match; [done|apply IH].
Qed.

(** X15. The branches [return false] of the realigner, the aligner and
    the matrix builder are never taken: [calc_score] has no path that
    returns false, so whatever the arguments these four functions either
    return true or do not return at all.  The classifier is the only
    function that returns false. *)
Theorem aligner_never_returns_false :
  (∀ i j seq1 seq2 m, calc_score i j seq1 seq2 m ≠ ReturnedFalse)
  ∧ (∀ rows cols seq1 seq2 m,
        create_score_matrix rows cols seq1 seq2 m ≠ ReturnedFalse)
  ∧ (∀ seq1 seq2, smith_waterman seq1 seq2 ≠ ReturnedFalse)
  ∧ (∀ seq pre_flank post_flank motif g,
        (expansion_aware_realign seq pre_flank post_flank motif g).1
        ≠ ReturnedFalse).
Proof.
  split; [apply calc_score_not_false|].
  split; [apply create_score_matrix_not_false|].
  split; [apply smith_waterman_not_false|].
  intros seq pre_flank post_flank motif g.
  unfold expansion_aware_realign, realign_trials. cbn [fst].
  apply bind_not_false; [|by intros [best log]].
  case_match; [done|apply realign_loop_not_false].
Qed.

(** X16. Under a scoring scheme that rewards matches only, the score of
    [smith_waterman] is at most the match score times the length of the
    shorter of the two sequences. *)
Theorem smith_waterman_score_bound (seq1 seq2 : list ascii) :
  scoring_scheme →
  Z.of_nat (length seq1) < max_int32 →
  Z.of_nat (length seq2) < max_int32 →
  Z.of_nat (length seq2) * MATCH_SCORE ≤ max_int32 →
  ∃ pos score,
    smith_waterman seq1 seq2 = Returned (pos, score)
    ∧ score ≤ Z.of_nat (length seq1) * MATCH_SCORE
    ∧ score ≤ Z.of_nat (length seq2) * MATCH_SCORE.
Proof.
  intros (S1 & S2 & S3 & S4 & S5) H1 H2 Hperf.
  destruct (smith_waterman_spec seq1 seq2) as (m & sp & sc & Hsw & Hres); [lia..|].
  eexists _, sc. split; [exact Hsw|].
  apply (sw_score_le S1 S2 S3 S4 S5 seq1 seq2 Hperf m sp sc Hres).
Qed.

End Realignment.

(** ** The threshold of the classifier *)

(** C8. For a fixed read and fixed values of [start_pos], [nCopy] and
    [score], if the classifier returns a class other than UNKNOWN at one
    value of [MATCH_PERC_THRESHOLD], then at any larger value it returns
    that same class or UNKNOWN. *)
Theorem raising_threshold_keeps_class (MATCH_SCORE : Z) (T1 T2 : Q)
    (seq motif : list ascii) (start_pos nCopy score prefix_length : Z)
    (g : globals) (c : SingleReadType) :
  Qle T1 T2 →
  classify_realigned_read MATCH_SCORE T1 seq motif start_pos nCopy score
    prefix_length g = Returned c →
  c ≠ SR_UNKNOWN →
  classify_realigned_read MATCH_SCORE T2 seq motif start_pos nCopy score
    prefix_length g = Returned c
  ∨ classify_realigned_read MATCH_SCORE T2 seq motif start_pos nCopy score
      prefix_length g = Returned SR_UNKNOWN.
Proof.
  intros _. unfold classify_realigned_read. cbv zeta.
  destruct ((score <? score_threshold MATCH_SCORE T1 seq) || (nCopy =? 0)) eqn:H1.
  - intros [= <-] Hc. done.
  - destruct ((score <? score_threshold MATCH_SCORE T2 seq) || (nCopy =? 0));
      [by right|by left].
Qed.

(** ** The statements at concrete inputs *)

(** The scheme of the examples: match 3, mismatch -1, gap -3, and a
    threshold of nine tenths. *)
Lemma example_scheme : scoring_scheme 3 (-1) (-3).
Proof. unfold scoring_scheme, min_int32. lia. Defined.

(** Scenario 1 of the specification expects the class ENCLOSING; the
    classifier returns IRR. *)
Lemma scenario_1_is_not_enclosing :
  realign_and_classify 3 (-1) (-3) nine_tenths
    (dna "AAAACACACATTTT") (dna "AAAA") (dna "TTTT") (dna "CA") 4 (Globals 0)
  = Returned (3, 0, 42, SR_IRR)
  ∧ realign_and_classify 3 (-1) (-3) nine_tenths
      (dna "AAAACACACATTTT") (dna "AAAA") (dna "TTTT") (dna "CA") 4 (Globals 0)
    ≠ Returned (3, 0, 14 * 3, SR_ENCLOSING).
Proof. split; [by vm_compute|by vm_compute]. Qed.

(** No position and no score make this read ENCLOSING: with a margin of
    7 the margin interval of the three copies, [-3, 17], is wider than
    the 14 bases of the read, so the read cannot leave it on both
    sides. *)
Lemma scenario_1_never_enclosing (MATCH_SCORE : Z) (T : Q) (pos score : Z) :
  -1000 ≤ pos ≤ 1000 →
  classify_realigned_read MATCH_SCORE T (dna "AAAACACACATTTT") (dna "CA")
    pos 3 score 4 (Globals 7) ≠ Returned SR_ENCLOSING.
Proof.
  intros Hpos. unfold classify_realigned_read, end_pos_of, end_str_of, in_str.
  change (size32 (dna "AAAACACACATTTT")) with 14.
  change (add32 4 (mul32 3 (size32 (dna "CA")))) with 10.
  change (sub32 4 (MARGIN (Globals 7))) with (-3).
  change (add32 10 (MARGIN (Globals 7))) with 17.
  rewrite (add32_id pos 14) by (unfold in_int32, min_int32, max_int32; lia).
  rewrite (sub32_id (pos + 14) 1) by (unfold in_int32, min_int32, max_int32; lia).
  cbv zeta.
  destruct ((score <? _) || (3 =? 0)); [done|].
  destruct (Z.geb_spec pos (-3)), (Z.leb_spec pos 17),
    (Z.geb_spec (pos + 14 - 1) (-3)), (Z.leb_spec (pos + 14 - 1) 17),
    (Z.ltb_spec pos 4), (Z.gtb_spec (pos + 14 - 1) 10); cbn; try done; lia.
Qed.

Lemma scenario_1_witness :
  realign_and_classify 3 (-1) (-3) nine_tenths
    (dna "AAAACACACATTTT") (dna "AAAA") (dna "TTTT") (dna "CA") 4 (Globals 0)
  = Returned (3, 0, 14 * 3, SR_IRR).
Proof.
  apply (scenario_1_realign_and_classify 3 (-1) (-3) nine_tenths (Globals 0)).
  - exact example_scheme.
  - unfold Qle. cbn. lia.
  - unfold Qle. cbn. lia.
  - unfold max_int32. lia.
Defined.

(** The trials of scenario 1, as the realigner runs them. *)
Example scenario_1_trials :
  realign_trials 3 (-1) (-3) (dna "AAAACACACATTTT") (dna "AAAA") (dna "TTTT")
    (dna "CA") (Globals 0)
  = (Returned (3, 0, 42,
               [Trial 0 (-6) 17; Trial 1 (-4) 24; Trial 2 (-2) 33; Trial 3 0 42]),
     Globals 7).
Proof. by vm_compute. Qed.

(** Scenario 2 of the specification: a read of three copies of the motif
    and no flank. *)
Example scenario_2_realign_and_classify :
  realign_and_classify 3 (-1) (-3) nine_tenths
    (dna "CACACA") (dna "AAAA") (dna "TTTT") (dna "CA") 4 (Globals 0)
  = Returned (3, 4, 18, SR_IRR).
Proof. by vm_compute. Qed.

(** For the read "G" and the motif "CA" the bound of the claim is
    [1 / 2 + 2 = 2]; the realigner tries the copy counts 0 and 1 only,
    and neither reaches the perfect score. *)
Lemma copy_count_2_is_not_tried :
  realign_trials 3 (-1) (-3) (dna "G") (dna "AAAA") (dna "TTTT") (dna "CA")
    (Globals 0)
  = (Returned (0, 0, 0, [Trial 0 (-2) 0; Trial 1 (-2) 0]), Globals 7)
  ∧ ¬ tries_all_up_to 3 (dna "G")
        (Z.of_nat (length (dna "G")) ÷ Z.of_nat (length (dna "CA")) + 2)
        [Trial 0 (-2) 0; Trial 1 (-2) 0].
Proof.
  split; [by vm_compute|].
  intros H. destruct (H 2) as [(t & Ht & Hk)|(t & Ht & _ & Hp)]; [by vm_compute|..].
  - rewrite !elem_of_cons, elem_of_nil in Ht.
    destruct Ht as [->|[->|[]]]; discriminate.
  - rewrite !elem_of_cons, elem_of_nil in Ht.
    destruct Ht as [->|[->|[]]]; discriminate.
Qed.

Lemma realign_tries_every_copy_count_witness :
  ∃ best log g',
    realign_trials 3 (-1) (-3) (dna "G") (dna "AAAA") (dna "TTTT") (dna "CA")
      (Globals 0) = (Returned (best, log), g')
    ∧ (∀ t, t ∈ log →
            0 ≤ t_nCopy t
            ≤ Z.of_nat (length (dna "G")) ÷ Z.of_nat (length (dna "CA")) + 1
            ∧ trial_of 3 (-1) (-3) (dna "G") (dna "AAAA") (dna "TTTT") (dna "CA")
                (t_nCopy t) = Returned t)
    ∧ tries_all_up_to 3 (dna "G")
        (Z.of_nat (length (dna "G")) ÷ Z.of_nat (length (dna "CA")) + 1) log.
Proof.
  apply (realign_tries_every_copy_count 3 (-1) (-3)
           (dna "G") (dna "AAAA") (dna "TTTT") (dna "CA") (Globals 0)).
  - discriminate.
  - unfold inputs_fit, max_int32. cbn. lia.
Defined.

(** For the read "G" no trial scores above 0: the realigner returns
    (0, 0, 0), which is the triple of no trial, both trials reporting
    position -2. *)
Lemma all_zero_trials_return_initial_triple :
  expansion_aware_realign 3 (-1) (-3) (dna "G") (dna "AAAA") (dna "TTTT")
    (dna "CA") (Globals 0)
  = (Returned (0, 0, 0), Globals 7)
  ∧ realign_trials 3 (-1) (-3) (dna "G") (dna "AAAA") (dna "TTTT") (dna "CA")
      (Globals 0)
    = (Returned (0, 0, 0, [Trial 0 (-2) 0; Trial 1 (-2) 0]), Globals 7)
  ∧ ¬ first_best_trial (0, 0, 0) [Trial 0 (-2) 0; Trial 1 (-2) 0].
Proof.
  split; [by vm_compute|]. split; [by vm_compute|].
  intros (t & Ht & Heq & _).
  rewrite !elem_of_cons, elem_of_nil in Ht.
  destruct Ht as [->|[->|[]]]; discriminate.
Qed.

Lemma realign_returns_first_best_trial_witness :
  ∃ r log g',
    realign_trials 3 (-1) (-3) (dna "CACACA") (dna "AAAA") (dna "TTTT") (dna "CA")
      (Globals 0) = (Returned (r, log), g')
    ∧ expansion_aware_realign 3 (-1) (-3) (dna "CACACA") (dna "AAAA") (dna "TTTT")
        (dna "CA") (Globals 0) = (Returned r, g')
    ∧ (∀ idx t, log !! idx = Some t →
                trial_of 3 (-1) (-3) (dna "CACACA") (dna "AAAA") (dna "TTTT")
                  (dna "CA") (Z.of_nat idx) = Returned t)
    ∧ ((∃ t, t ∈ log ∧ 0 < t_score t) → first_best_trial r log)
    ∧ ((∀ t, t ∈ log → t_score t ≤ 0) → r = (0, 0, 0))
    ∧ stops_at_perfect 3 (dna "CACACA") log.
Proof.
  apply (realign_returns_first_best_trial 3 (-1) (-3)
           (dna "CACACA") (dna "AAAA") (dna "TTTT") (dna "CA") (Globals 0)).
  - discriminate.
  - unfold inputs_fit, max_int32. cbn. lia.
Defined.



Lemma realign_score_at_most_perfect_witness :
  ∃ nCopy pos score g',
    expansion_aware_realign 3 (-1) (-3) (dna "CACACA") (dna "AAAA") (dna "TTTT")
      (dna "CA") (Globals 0) = (Returned (nCopy, pos, score), g')
    ∧ score ≤ Z.of_nat (length (dna "CACACA")) * 3
    ∧ (score = Z.of_nat (length (dna "CACACA")) * 3
       ↔ occurs (dna "CACACA")
           (var_realign_string (dna "AAAA") (dna "TTTT") (dna "CA") nCopy)).
Proof.
  apply (realign_score_at_most_perfect 3 (-1) (-3)
           (dna "CACACA") (dna "AAAA") (dna "TTTT") (dna "CA") (Globals 0)).
  - exact example_scheme.
  - discriminate.
  - unfold inputs_fit, max_int32. cbn. lia.
  - unfold max_int32. cbn. lia.
Defined.

Lemma score_matrix_nonneg_witness :
  ∃ m start_pos score,
    smith_waterman_matrix 3 (-1) (-3) (dna "ACA") (dna "CA")
    = Returned (m, start_pos, score)
    ∧ shape m (Z.of_nat (length (dna "ACA")) + 1) (Z.of_nat (length (dna "CA")) + 1)
    ∧ ∀ (a b : nat) row v,
        m !! a = Some row → row !! b = Some v →
        0 ≤ v ∧ (a = 0%nat ∨ b = 0%nat → v = 0).
Proof.
  apply (score_matrix_nonneg 3 (-1) (-3) (dna "ACA") (dna "CA")).
  - unfold max_int32. cbn. lia.
  - unfold max_int32. cbn. lia.
Defined.

Lemma no_alignment_sentinel_witness :
  ∃ m start_pos score,
    create_score_matrix 3 (-1) (-3)
      (Z.of_nat (length (dna "GG")) + 1) (Z.of_nat (length (dna "CA")) + 1)
      (dna "GG") (dna "CA")
      (replicate (Z.to_nat (Z.of_nat (length (dna "GG")) + 1))
         (replicate (Z.to_nat (Z.of_nat (length (dna "CA")) + 1)) 0))
    = Returned (m, start_pos, score)
    ∧ ((∀ (a b : nat) row v, m !! a = Some row → row !! b = Some v → v ≤ 0)
       ↔ start_pos = -1 ∧ score = 0).
Proof.
  apply (no_alignment_sentinel 3 (-1) (-3) (dna "GG") (dna "CA")).
  - unfold max_int32. cbn. lia.
  - unfold max_int32. cbn. lia.
Defined.

Lemma raising_threshold_keeps_class_witness :
  classify_realigned_read 3 nine_tenths (dna "AAAACACACATTTT") (dna "CA")
    0 3 30 4 (Globals 7) = Returned SR_IRR
  ∨ classify_realigned_read 3 nine_tenths (dna "AAAACACACATTTT") (dna "CA")
      0 3 30 4 (Globals 7) = Returned SR_UNKNOWN.
Proof.
  apply (raising_threshold_keeps_class 3 (Qmake 1 2) nine_tenths
           (dna "AAAACACACATTTT") (dna "CA") 0 3 30 4 (Globals 7) SR_IRR).
  - unfold Qle. cbn. lia.
  - by vm_compute.
  - discriminate.
Defined.

(** Row 0 of the matrix allocated for "A" and "A" is inside that
    matrix, and so is cell (2,2) of a matrix of three rows of three
    cells; [calc_score] throws at both. *)
Lemma calc_score_error_inside_matrix :
  (in_matrix [[0; 0]; [0; 0]] 0 1
   ∧ calc_score 3 (-1) (-3) 0 1 (dna "A") (dna "A") [[0; 0]; [0; 0]]
     = OutOfRange)
  ∧ (in_matrix [[0; 0; 0]; [0; 0; 0]; [0; 0; 0]] 2 2
     ∧ calc_score 3 (-1) (-3) 2 2 (dna "A") (dna "A")
         [[0; 0; 0]; [0; 0; 0]; [0; 0; 0]]
       = OutOfRange).
Proof.
  split; (split; [by exists 0|by vm_compute]).
Qed.

Lemma calc_score_throws_iff_access_fails_witness :
  ((∃ m', calc_score 3 (-1) (-3) 0 1 (dna "A") (dna "A") [[0; 0]; [0; 0]]
          = Returned m')
   ↔ accesses_in_range (dna "A") (dna "A") [[0; 0]; [0; 0]] 0 1)
  ∧ (calc_score 3 (-1) (-3) 0 1 (dna "A") (dna "A") [[0; 0]; [0; 0]]
     = OutOfRange
     ↔ ¬ accesses_in_range (dna "A") (dna "A") [[0; 0]; [0; 0]] 0 1)
  ∧ (∀ rows cols,
        shape [[0; 0]; [0; 0]] rows cols →
        accesses_in_range (dna "A") (dna "A") [[0; 0]; [0; 0]] 0 1
        ↔ 1 ≤ 0 < rows ∧ 1 ≤ 1 < cols
          ∧ 0 ≤ Z.of_nat (length (dna "A")) ∧ 1 ≤ Z.of_nat (length (dna "A"))).
Proof.
  apply (calc_score_throws_iff_access_fails 3 (-1) (-3) (dna "A") (dna "A")
           [[0; 0]; [0; 0]] 0 1).
  - unfold in_int32, min_int32, max_int32. lia.
  - unfold in_int32, min_int32, max_int32. lia.
Defined.

Lemma realign_total_only_for_nonempty_motif_witness :
  (expansion_aware_realign 3 (-1) (-3) (dna "CACACA") (dna "AAAA") (dna "TTTT")
     [] (Globals 0)).1 = DivideByZero
  ∧ ∃ r, (expansion_aware_realign 3 (-1) (-3) (dna "CACACA") (dna "AAAA")
            (dna "TTTT") (dna "CA") (Globals 0)).1 = Returned r.
Proof.
  destruct (realign_total_only_for_nonempty_motif 3 (-1) (-3)) as [Hempty Htotal].
  split.
  - apply Hempty.
  - apply Htotal.
    + discriminate.
    + unfold inputs_fit, max_int32. cbn. lia.
Defined.

(** ** The further statements at concrete inputs *)

Lemma create_score_matrix_first_maximum_witness :
  ∃ m start_pos score,
    smith_waterman_matrix 3 (-1) (-3) (dna "ACACA") (dna "CA")
    = Returned (m, start_pos, score)
    ∧ (∀ (a b : nat) row v, m !! a = Some row → row !! b = Some v → v ≤ score)
    ∧ (0 < score →
       ∃ (r c : nat) row,
         start_pos = Z.of_nat r ∧ m !! r = Some row ∧ row !! c = Some score
         ∧ ∀ (a b : nat) row' v,
             m !! a = Some row' → row' !! b = Some v →
             (a < r ∨ (a = r ∧ b < c))%nat → v < score).
Proof.
  apply (create_score_matrix_first_maximum 3 (-1) (-3) (dna "ACACA") (dna "CA")).
  - unfold max_int32. cbn. lia.
  - unfold max_int32. cbn. lia.
Defined.

Lemma smith_waterman_position_range_witness :
  ∃ pos score,
    smith_waterman 3 (-1) (-3) (dna "ACACA") (dna "CA") = Returned (pos, score)
    ∧ 0 ≤ score
    ∧ (score = 0 ↔ pos = -1 - Z.of_nat (length (dna "CA")))
    ∧ (0 < score →
       1 - Z.of_nat (length (dna "CA")) ≤ pos
       ≤ Z.of_nat (length (dna "ACACA")) - Z.of_nat (length (dna "CA"))).
Proof.
  apply (smith_waterman_position_range 3 (-1) (-3) (dna "ACACA") (dna "CA")).
  - unfold max_int32. cbn. lia.
  - unfold max_int32. cbn. lia.
Defined.

Lemma smith_waterman_empty_sequence_witness :
  smith_waterman 3 (-1) (-3) (dna "ACACA") []
  = Returned (-1 - Z.of_nat (length (@nil ascii)), 0).
Proof.
  apply (smith_waterman_empty_sequence 3 (-1) (-3) (dna "ACACA") []).
  - unfold max_int32. cbn. lia.
  - unfold max_int32. cbn. lia.
  - right. reflexivity.
Defined.

Lemma smith_waterman_score_symmetric_witness :
  ∃ pos pos' score,
    smith_waterman 3 (-1) (-3) (dna "ACACA") (dna "CAT") = Returned (pos, score)
    ∧ smith_waterman 3 (-1) (-3) (dna "CAT") (dna "ACACA") = Returned (pos', score).
Proof.
  apply (smith_waterman_score_symmetric 3 (-1) (-3) (dna "ACACA") (dna "CAT")).
  - unfold max_int32. cbn. lia.
  - unfold max_int32. cbn. lia.
Defined.

Lemma smith_waterman_common_substring_witness :
  ∃ pos score,
    smith_waterman 3 (-1) (-3) (dna "AACAT") (dna "GCAG") = Returned (pos, score)
    ∧ Z.of_nat (length (dna "CA")) * 3 ≤ score.
Proof.
  apply (smith_waterman_common_substring 3 (-1) (-3) (dna "AACAT") (dna "GCAG")
           (dna "AA") (dna "CA") (dna "T") (dna "G") (dna "G")).
  - exact example_scheme.
  - unfold max_int32. cbn. lia.
  - unfold max_int32. cbn. lia.
  - unfold max_int32. cbn. lia.
  - vm_compute. reflexivity.
  - vm_compute. reflexivity.
Defined.

Lemma smith_waterman_positive_iff_shared_base_witness :
  ∃ pos score,
    smith_waterman 3 (-1) (-3) (dna "AACAT") (dna "GCAG") = Returned (pos, score)
    ∧ (0 < score ↔ ∃ c, c ∈ dna "AACAT" ∧ c ∈ dna "GCAG").
Proof.
  apply (smith_waterman_positive_iff_shared_base 3 (-1) (-3)
           (dna "AACAT") (dna "GCAG")).
  - exact example_scheme.
  - lia.
  - unfold max_int32. cbn. lia.
  - unfold max_int32. cbn. lia.
  - unfold max_int32. cbn. lia.
Defined.

Lemma smith_waterman_first_occurrence_witness :
  smith_waterman 3 (-1) (-3) (dna "AACATCA") (dna "CA")
  = Returned (Z.of_nat 2, Z.of_nat (length (dna "CA")) * 3).
Proof.
  apply (smith_waterman_first_occurrence 3 (-1) (-3) (dna "AACATCA") (dna "CA") 2).
  - exact example_scheme.
  - unfold max_int32. cbn. lia.
  - unfold max_int32. cbn. lia.
  - unfold max_int32. cbn. lia.
  - discriminate.
  - split; [cbn; lia|reflexivity].
  - intros off' Hlt [_ Hocc].
    destruct off' as [|[|off']]; [vm_compute in Hocc; discriminate..|].
    unfold lt in Hlt. lia.
Defined.

Lemma realign_exact_read_witness :
  expansion_aware_realign 3 (-1) (-3)
    (var_realign_string (dna "AAAA") (dna "TTTT") (dna "CA") 3)
    (dna "AAAA") (dna "TTTT") (dna "CA") (Globals 0)
  = (Returned
       (3, 0,
        Z.of_nat (length (var_realign_string (dna "AAAA") (dna "TTTT") (dna "CA") 3))
        * 3),
     Globals (margin_of (dna "CA"))).
Proof.
  apply (realign_exact_read 3 (-1) (-3) (dna "AAAA") (dna "TTTT") (dna "CA") 3
           (Globals 0)).
  - exact example_scheme.
  - discriminate.
  - lia.
  - discriminate.
  - by vm_compute.
  - by vm_compute.
Defined.

Lemma realign_empty_read_witness :
  realign_trials 3 (-1) (-3) [] (dna "AAAA") (dna "TTTT") (dna "CA") (Globals 0)
  = (Returned (0, 0, 0, [Trial 0 (-1) 0]), Globals (margin_of (dna "CA"))).
Proof.
  apply (realign_empty_read 3 (-1) (-3) (dna "AAAA") (dna "TTTT") (dna "CA")
           (Globals 0)).
  - discriminate.
  - unfold inputs_fit, max_int32. cbn. lia.
Defined.

Lemma realign_result_range_witness :
  ∃ nCopy pos score,
    expansion_aware_realign 3 (-1) (-3) (dna "ACACAT") (dna "AAAA") (dna "TTTT")
      (dna "CA") (Globals 0)
    = (Returned (nCopy, pos, score), Globals (margin_of (dna "CA")))
    ∧ 0 ≤ nCopy
      ≤ Z.of_nat (length (dna "ACACAT")) ÷ Z.of_nat (length (dna "CA")) + 1
    ∧ 0 ≤ score
    ∧ (score = 0 → nCopy = 0 ∧ pos = 0)
    ∧ (0 < score →
       0 ≤ pos + Z.of_nat (length (dna "ACACAT")) - 1
       < Z.of_nat (length (var_realign_string (dna "AAAA") (dna "TTTT")
                             (dna "CA") nCopy))).
Proof.
  apply (realign_result_range 3 (-1) (-3) (dna "ACACAT") (dna "AAAA") (dna "TTTT")
           (dna "CA") (Globals 0)).
  - discriminate.
  - unfold inputs_fit, max_int32. cbn. lia.
Defined.

Lemma realign_and_classify_foreign_read_witness :
  realign_and_classify 3 (-1) (-3) nine_tenths (dna "GG") (dna "AAAA")
    (dna "TTTT") (dna "CA") 4 (Globals 0)
  = Returned (0, 0, 0, SR_UNKNOWN).
Proof.
  apply (realign_and_classify_foreign_read 3 (-1) (-3) nine_tenths (dna "GG")
           (dna "AAAA") (dna "TTTT") (dna "CA") 4 (Globals 0)).
  - exact example_scheme.
  - lia.
  - discriminate.
  - unfold inputs_fit, max_int32. cbn. lia.
  - unfold max_int32. cbn. lia.
  - intros c Hc. cbn in Hc.
    rewrite !elem_of_cons, elem_of_nil in Hc.
    assert (c = "G"%char) as -> by tauto.
    cbn. rewrite !not_elem_of_cons. repeat split; (discriminate || apply not_elem_of_nil).
Defined.

Lemma classify_enclosing_iff_witness :
  classify_realigned_read 3 nine_tenths (dna "AAAAAAAACACACATTTTTTTTTTTTTT")
    (dna "CA") (-5) 3 84 4 (Globals 7) = Returned SR_ENCLOSING
  ↔ score_threshold 3 nine_tenths (dna "AAAAAAAACACACATTTTTTTTTTTTTT") ≤ 84
    ∧ 3 ≠ 0
    ∧ -5 < 4 - MARGIN (Globals 7)
    ∧ 4 + 3 * Z.of_nat (length (dna "CA")) + MARGIN (Globals 7)
      < -5 + Z.of_nat (length (dna "AAAAAAAACACACATTTTTTTTTTTTTT")) - 1.
Proof.
  apply (classify_enclosing_iff 3 nine_tenths
           (dna "AAAAAAAACACACATTTTTTTTTTTTTT") (dna "CA") (-5) 3 84 4 (Globals 7)).
  - unfold classifier_in_range, in_int32, min_int32, max_int32. cbn. lia.
  - cbn. lia.
  - lia.
Defined.

Lemma classify_false_iff_witness :
  classify_realigned_read 3 nine_tenths (dna "ACGTA") (dna "CA") 100 1 15 4
    (Globals 7) = ReturnedFalse
  ↔ score_threshold 3 nine_tenths (dna "ACGTA") ≤ 15
    ∧ 1 ≠ 0
    ∧ (100 + Z.of_nat (length (dna "ACGTA")) - 1 < 4 - MARGIN (Globals 7)
       ∨ 4 + 1 * Z.of_nat (length (dna "CA")) + MARGIN (Globals 7) < 100).
Proof.
  apply (classify_false_iff 3 nine_tenths (dna "ACGTA") (dna "CA") 100 1 15 4
           (Globals 7)).
  - unfold classifier_in_range, in_int32, min_int32, max_int32. cbn. lia.
  - cbn. lia.
  - lia.
  - discriminate.
Defined.


Lemma smith_waterman_score_bound_witness :
  ∃ pos score,
    smith_waterman 3 (-1) (-3) (dna "ACACA") (dna "CAT") = Returned (pos, score)
    ∧ score ≤ Z.of_nat (length (dna "ACACA")) * 3
    ∧ score ≤ Z.of_nat (length (dna "CAT")) * 3.
Proof.
  apply (smith_waterman_score_bound 3 (-1) (-3) (dna "ACACA") (dna "CAT")).
  - exact example_scheme.
  - unfold max_int32. cbn. lia.
  - unfold max_int32. cbn. lia.
  - unfold max_int32. cbn. lia.
Defined.
